(** * tasq: actors, futures and the client state machine

    A shallow embedding of [tasq/actor.py] and [tasq/remote/client.py].

    Threads are modelled by interleaving: every thread of the program is a
    component of the state, and a run of the program is a list of events, each
    of which is either a call made by the user of the object or one step of a
    background thread (the actor's processing thread, the client's gathering
    thread).  A call has one of three outcomes: it returns a value, it raises
    an exception, or it blocks (it would wait for another thread). *)

From Stdlib Require Import ZArith QArith.
From stdpp Require Import base option list gmap strings.

Open Scope string_scope.
Open Scope list_scope.

(** The exceptions that the embedded code raises or lets through. *)
Inductive Exception :=
| ActorExit
| TasqClientNotConnected
| RuntimeError        (* Thread.start on a thread started before *)
| UnboundLocalError   (* a local variable read before assignment *)
| InvalidStateError   (* Future.set_result on a finished future *)
| TimeoutError        (* Future.result when the timeout expires *)
| OverflowError       (* a wait with a timeout above threading.TIMEOUT_MAX *)
| TypeError           (* a keyword argument given twice, a bad timeout *)
| AttributeError      (* a method called on None *)
| TransportError      (* raised by the receive primitive of the connection *)
| IndexError.         (* a list index out of range *)

Inductive Outcome (A : Type) :=
| Returns (a : A)
| Raises (e : Exception)
| Blocks.
Arguments Returns {A} a.
Arguments Raises {A} e.
Arguments Blocks {A}.

(** A number given as a timeout: an [int] or a finite [float], which are
    rationals, or one of the floats [inf], [-inf] and [nan]. *)
Inductive Number := Finite (q : Q) | PlusInfinity | MinusInfinity | NaN.

(** A timeout argument: [None] is Python's [None] (wait for ever), [Some n]
    a number of seconds. *)
Definition Timeout := option Number.

(** [threading.TIMEOUT_MAX], in seconds, on a 64-bit build. *)
Definition TIMEOUT_MAX : Q := inject_Z 9223372036.

(** What [threading.Condition.wait(timeout)] does with a number, when
    nothing notifies the condition: above [TIMEOUT_MAX] the lock refuses the
    timeout with [OverflowError]; when [timeout > 0] holds it waits until
    the timeout expires; when it does not hold (zero, a negative number,
    [nan]) it does not wait at all. *)
Inductive Wait := WaitRefused | WaitExpires | WaitSkipped.

Definition wait_of (n : Number) : Wait :=
  match n with
  | Finite q =>
      if Qlt_le_dec TIMEOUT_MAX q then WaitRefused
      else if Qlt_le_dec 0 q then WaitExpires
      else WaitSkipped
  | PlusInfinity => WaitRefused
  | MinusInfinity | NaN => WaitSkipped
  end.

(** ** tasq/actor.py *)
Module actor.

(** *** class Result *)
Section Result.
Context {V : Type}.

(** [_event] is the flag of the [threading.Event]; [_result] is [None] for
    Python's [None]. *)
Record Result := mkResult { _event : bool; _result : option V }.

Definition Result_init : Result := mkResult false None.

Definition set_result (r : Result) (value : V) : Result :=
  mkResult true (Some value).

(** [Event.wait(timeout)] in a stretch of the run in which no other thread
    sets the event: it returns at once when the flag is set, whatever the
    timeout; otherwise it waits on the condition of the event, which raises
    for a timeout that is too large, returns [False] when the timeout
    expires or is not positive, and without a timeout never returns. *)
Definition Event_wait (flag : bool) (timeout : Timeout) : Outcome bool :=
  if flag then Returns true
  else match timeout with
       | Some n =>
           match wait_of n with
           | WaitRefused => Raises OverflowError
           | WaitExpires | WaitSkipped => Returns false
           end
       | None => Blocks
       end.

Definition result (r : Result) (timeout : Timeout) : Outcome (option V) :=
  match Event_wait (_event r) timeout with
  | Returns _ => Returns (_result r)
  | Raises e => Raises e
  | Blocks => Blocks
  end.
End Result.
Arguments Result : clear implicits.

(** *** class Actor *)
Section Actor.
(** [Msg] is the type of ordinary messages, [St] the state of the
    subclass's [run] method. *)
Context {Msg St : Type}.

(** What is put into the mailbox: a message, or the class [ActorExit]
    itself, which [close] sends and [recv] recognises with [is]. *)
Inductive Mail := Message (m : Msg) | ActorExitClass.

(** [run] is left to subclasses.  Whatever it is, seen from the actor it
    does one of three things next: it returns, it raises an exception other
    than [ActorExit], or it calls [self.recv()] and goes on with the
    message it gets. *)
Inductive RunStep := RunReturn | RunRaise | RunRecv (k : Msg → St).

Variable run : St → RunStep.
Variable run_init : St.

Inductive ThreadState := NotStarted | Running (s : St) | Exited.

(** [received] and [exits] are history variables: the messages that [recv]
    has handed to [run] so far, and the number of times the [finally]
    clause of [_bootstrap] has set [_terminated]. *)
Record Actor := mkActor {
  _mailbox : list Mail;
  _terminated : bool;
  thread : ThreadState;
  received : list Msg;
  exits : nat
}.

Definition Actor_init : Actor := mkActor [] false NotStarted [] 0.

Definition send (a : Actor) (msg : Mail) : Actor :=
  mkActor (_mailbox a ++ [msg]) (_terminated a) (thread a) (received a) (exits a).

(** [Queue.get] blocks on an empty queue. *)
Definition recv (a : Actor) : Outcome Msg * Actor :=
  match _mailbox a with
  | [] => (Blocks, a)
  | msg :: q =>
      let a' := mkActor q (_terminated a) (thread a) (received a) (exits a) in
      match msg with
      | ActorExitClass => (Raises ActorExit, a')
      | Message m => (Returns m, a')
      end
  end.

Definition close (a : Actor) : Actor := send a ActorExitClass.

(** [start] is modelled for its first call only: a second call would start
    a second thread on the same mailbox. *)
Definition start (a : Actor) : Actor :=
  mkActor (_mailbox a) (_terminated a) (Running run_init) (received a) (exits a).

(** The end of [_bootstrap]: [run] has returned or raised, the [finally]
    clause sets the event and the thread is over. *)
Definition bootstrap_finally (a : Actor) : Actor :=
  mkActor (_mailbox a) true Exited (received a) (S (exits a)).

(** One step of the thread that executes [_bootstrap]. *)
Definition thread_step (a : Actor) : Actor :=
  match thread a with
  | Running s =>
      match run s with
      | RunReturn => bootstrap_finally a
      | RunRaise => bootstrap_finally a
      | RunRecv k =>
          match recv a with
          | (Blocks, _) => a
          | (Raises _, a') => bootstrap_finally a'
          | (Returns m, a') =>
              mkActor (_mailbox a') (_terminated a') (Running (k m))
                      (received a' ++ [m]) (exits a')
          end
      end
  | NotStarted | Exited => a
  end.

Definition join (a : Actor) : Outcome unit :=
  match Event_wait (_terminated a) None with
  | Returns _ => Returns tt
  | Raises e => Raises e
  | Blocks => Blocks
  end.

(** Runs of a started actor. *)
Inductive Event := ESend (m : Msg) | EClose | EThread.

Definition step (a : Actor) (e : Event) : Actor :=
  match e with
  | ESend m => send a (Message m)
  | EClose => close a
  | EThread => thread_step a
  end.

Definition exec (evs : list Event) (a : Actor) : Actor := foldl step a evs.

(** What a run puts into the mailbox, in order. *)
Definition enqueued (evs : list Event) : list Mail :=
  omap (λ e, match e with
             | ESend m => Some (Message m)
             | EClose => Some ActorExitClass
             | EThread => None
             end) evs.

(** The messages that come before the first [ActorExit] in a mailbox. *)
Fixpoint before_exit (q : list Mail) : list Msg :=
  match q with
  | Message m :: q' => m :: before_exit q'
  | _ => []
  end.

(** The bookkeeping of a started actor after a run that has put [E] into the
    mailbox: what [recv] has taken out is a prefix of [E], all of it handed
    to [run] except an [ActorExit], which ends the thread. *)
Definition consistent (E : list Mail) (a : Actor) : Prop :=
  match thread a with
  | NotStarted => False
  | Running _ =>
      E = (Message <$> received a) ++ _mailbox a ∧
      _terminated a = false ∧ exits a = 0
  | Exited =>
      (E = (Message <$> received a) ++ _mailbox a ∨
       E = (Message <$> received a) ++ ActorExitClass :: _mailbox a) ∧
      _terminated a = true ∧ exits a = 1
  end.
End Actor.

(** A [run] that loops on [recv] for ever, and a run of an actor with it. *)
Definition recv_for_ever : unit → @RunStep nat unit := λ _, RunRecv (λ _, tt).

Definition sample_events : list (@Event nat) :=
  [ESend 1; EClose; ESend 2; EThread; EThread; EClose; EThread].

Arguments Mail : clear implicits.
Arguments Event : clear implicits.
Arguments Actor : clear implicits.
Arguments RunStep : clear implicits.
Arguments ThreadState : clear implicits.

(** A [run] that never returns nor raises by itself: whatever its state, the
    next thing it does is to call [self.recv()]. *)
Definition always_receives {Msg St : Type} (run : St → RunStep Msg St) : Prop :=
  ∀ s, ∃ k, run s = RunRecv k.

End actor.


(** ** tasq/remote/client.py *)
Module client.

(** The Python values that occur as job names, arguments and keyword
    arguments: [None], integers, strings, and the identifiers that
    [uuid.uuid4()] returns. *)
Inductive Value := VNone | VInt (z : Z) | VStr (s : string) | VUuid (u : nat).

#[global] Instance Value_eq_dec : EqDecision Value.
Proof. solve_decision. Defined.

#[global] Instance Value_countable : Countable Value.
Proof.
  refine (inj_countable'
    (λ v, match v with
          | VNone => inl (inl tt) | VInt z => inl (inr z)
          | VStr s => inr (inl s) | VUuid u => inr (inr u)
          end)
    (λ x, match x with
          | inl (inl _) => VNone | inl (inr z) => VInt z
          | inr (inl s) => VStr s | inr (inr u) => VUuid u
          end) _).
  by intros [].
Defined.

(** Python's truth value, as [or] and [not] test it. *)
Definition truthy (v : Value) : bool :=
  match v with
  | VNone => false
  | VInt z => bool_decide (z ≠ 0%Z)
  | VStr s => bool_decide (s ≠ "")
  | VUuid _ => true
  end.

(** A reference to a callable. *)
Definition Func := string.

(** Modelled from the spec: the class [Job] of [tasq/job.py], which is not
    among the sources.  A job has a [job_id], "generated if no name
    supplied", and a [name], the key under which its result comes back,
    which "defaults to [job_id]"; [func], [args] and [kwargs] are what the
    client reads back from a buffered job. *)
Record Job := mkJob {
  job_id : Value;
  job_name : Value;
  func : Func;
  args : list Value;
  kwargs : gmap string Value
}.

(** [Job(name, func, *args, **kwargs)].  [uuid] is the state of the
    generator behind [uuid.uuid4()], a counter: an identifier is drawn only
    when the name given is empty. *)
Definition Job_init (uuid : nat) (name : Value) (f : Func) (a : list Value)
    (kw : gmap string Value) : Job * nat :=
  if truthy name then (mkJob name name f a kw, uuid)
  else (mkJob (VUuid uuid) (VUuid uuid) f a kw, S uuid).

Inductive JobStatus := SUCCESS | FAILED.

(** Modelled from the spec: the class [JobResult] of [tasq/job.py]. *)
Record JobResult := mkJobResult {
  name : Value;
  outcome : JobStatus;
  value : Value;
  exc : Value;
  exec_time : Z
}.

(** *** class TasqFuture(concurrent.futures.Future) *)

(** [_result] is [None] while the future is pending.  [set_result_calls] is
    a history variable: how often [set_result] has been called on the
    object. *)
Record TasqFuture := mkFuture {
  _result : option JobResult;
  set_result_calls : nat
}.

Definition TasqFuture_init : TasqFuture := mkFuture None 0.

Definition done (f : TasqFuture) : bool := bool_decide (is_Some (_result f)).

(** [Future.result(timeout)] of the standard library, in a stretch of the
    run in which no other thread completes the future: a finished future
    returns its result whatever the timeout; a pending one waits on its
    condition, which raises for a timeout that is too large, and is still
    pending afterwards. *)
Definition result (f : TasqFuture) (timeout : Timeout) : Outcome JobResult :=
  match _result f with
  | Some r => Returns r
  | None => match timeout with
            | Some n =>
                match wait_of n with
                | WaitRefused => Raises OverflowError
                | WaitExpires | WaitSkipped => Raises TimeoutError
                end
            | None => Blocks
            end
  end.

Definition unwrap (f : TasqFuture) : Outcome Value :=
  match result f None with
  | Returns job_result =>
      match outcome job_result with
      | FAILED => Returns (exc job_result)
      | SUCCESS => Returns (value job_result)
      end
  | Raises e => Raises e
  | Blocks => Blocks
  end.

Definition exec_time_of (f : TasqFuture) : Outcome Z :=
  match result f None with
  | Returns job_result => Returns (exec_time job_result)
  | Raises e => Raises e
  | Blocks => Blocks
  end.

(** *** The state of a client *)

Inductive ClientClass := ZMQTasqClient | RedisTasqClient | RabbitMQTasqClient.

(** A [threading.Thread] running [_gather_results].  While it is alive it
    carries the loop's local variable [job_result]: [None] while the
    variable is unbound, [Some None] when it holds Python's [None]. *)
Inductive Thread :=
| Initial
| Alive (job_result : option (option JobResult))
| Dead (e : Exception).

(** The calls of [connect], [disconnect], [close] and [send] made on the
    connection object [_client], which is an external collaborator.  The
    calls of its receive primitive are not among them: what each of those
    does is given by a [Recv] event. *)
Inductive Call := CConnect | CDisconnect | CClose | CSend (j : Job).

Inductive LogRecord :=
| LogDebug (msg : string)
| LogWarning (msg : string)
| LogError (msg : string).

(** [_client] is the history of the [connect], [disconnect], [close] and
    [send] calls on the connection, [_log] the records written to the
    logger.  [futures] is the store of the [TasqFuture]
    objects that the client has created: a future is known by its position
    in it, and it is that identity that [_results] holds and [schedule]
    returns.  [uuid4] is the state of the identifier generator. *)
Record Client := mkClient {
  cls : ClientClass;
  _client : list Call;
  _is_connected : bool;
  _results : gmap Value nat;
  _pending : list Job;
  _gatherer : Thread;
  _log : list LogRecord;
  futures : list TasqFuture;
  uuid4 : nat
}.

Definition Client_init (k : ClientClass) : Client :=
  mkClient k [] false ∅ [] Initial [] [] 0.

Definition with_client (x : list Call) (c : Client) : Client :=
  mkClient (cls c) x (_is_connected c) (_results c) (_pending c)
           (_gatherer c) (_log c) (futures c) (uuid4 c).
Definition with_is_connected (x : bool) (c : Client) : Client :=
  mkClient (cls c) (_client c) x (_results c) (_pending c)
           (_gatherer c) (_log c) (futures c) (uuid4 c).
Definition with_results (x : gmap Value nat) (c : Client) : Client :=
  mkClient (cls c) (_client c) (_is_connected c) x (_pending c)
           (_gatherer c) (_log c) (futures c) (uuid4 c).
Definition with_pending (x : list Job) (c : Client) : Client :=
  mkClient (cls c) (_client c) (_is_connected c) (_results c) x
           (_gatherer c) (_log c) (futures c) (uuid4 c).
Definition with_gatherer (x : Thread) (c : Client) : Client :=
  mkClient (cls c) (_client c) (_is_connected c) (_results c) (_pending c)
           x (_log c) (futures c) (uuid4 c).
Definition with_log (x : list LogRecord) (c : Client) : Client :=
  mkClient (cls c) (_client c) (_is_connected c) (_results c) (_pending c)
           (_gatherer c) x (futures c) (uuid4 c).
Definition with_futures (x : list TasqFuture) (c : Client) : Client :=
  mkClient (cls c) (_client c) (_is_connected c) (_results c) (_pending c)
           (_gatherer c) (_log c) x (uuid4 c).
Definition with_uuid4 (x : nat) (c : Client) : Client :=
  mkClient (cls c) (_client c) (_is_connected c) (_results c) (_pending c)
           (_gatherer c) (_log c) (futures c) x.

Definition log (r : LogRecord) (c : Client) : Client :=
  with_log (_log c ++ [r]) c.

(** The jobs sent over the connection, in order. *)
Definition sent (c : Client) : list Job :=
  omap (λ x, match x with CSend j => Some j | _ => None end) (_client c).

(** *** collections.deque *)

Definition deque_appendleft {A} (x : A) (q : list A) : list A := x :: q.

(** [pop] takes the rightmost element. *)
Definition deque_pop {A} (q : list A) : option (A * list A) :=
  match reverse q with
  | [] => None
  | x :: r => Some (x, reverse r)
  end.

(** *** threading.Thread *)

Definition is_alive (t : Thread) : bool :=
  match t with Alive _ => true | _ => false end.

(** A thread can be started once; the loop begins with [job_result]
    unbound. *)
Definition Thread_start (t : Thread) : Outcome Thread :=
  match t with
  | Initial => Returns (Alive None)
  | _ => Raises RuntimeError
  end.

(** *** BaseTasqClient *)

Definition schedule (c : Client) (f : Func) (a : list Value)
    (kw : gmap string Value) : option nat * Client :=
  let name := default (VStr "") (kw !! "name") in
  let kw := delete "name" kw in
  let '(job, u) := Job_init (uuid4 c) name f a kw in
  let c := with_uuid4 u c in
  if negb (_is_connected c) then
    let c := log (LogDebug "Client not connected, appending job to pending queue.") c in
    let c := with_pending (deque_appendleft job (_pending c)) c in
    (None, c)
  else
    let future := length (futures c) in
    let c := with_futures (futures c ++ [TasqFuture_init]) c in
    let c := with_results (<[name := future]> (_results c)) c in
    let c := with_client (_client c ++ [CSend job]) c in
    (Some future, c).

(** The loop [while self._pending: ...] of [connect].  It is given as many
    rounds as the caller allows; [Blocks] says that the rounds ran out
    before the queue was empty.  The call [self.schedule(job.func,
    *job.args, name=job.job_id, **job.kwargs)] is a [TypeError] when
    [job.kwargs] has a [name] of its own. *)
Fixpoint drain (rounds : nat) (c : Client) : Outcome unit * Client :=
  match deque_pop (_pending c) with
  | None => (Returns tt, c)
  | Some (job, q) =>
      match rounds with
      | 0 => (Blocks, c)
      | S n =>
          let c := with_pending q c in
          match kwargs job !! "name" with
          | Some _ => (Raises TypeError, c)
          | None =>
              drain n (schedule c (func job) (args job)
                         (<["name" := job_id job]> (kwargs job))).2
          end
      end
  end.

Definition BaseTasqClient_connect (c : Client) : Outcome unit * Client :=
  if negb (_is_connected c) then
    let c := with_client (_client c ++ [CConnect]) c in
    let c := with_is_connected true c in
    if negb (is_alive (_gatherer c)) then
      match Thread_start (_gatherer c) with
      | Returns t => let c := with_gatherer t c in drain (length (_pending c)) c
      | Raises e => (Raises e, c)
      | Blocks => (Blocks, c)
      end
    else drain (length (_pending c)) c
  else (Returns tt, c).

Definition BaseTasqClient_disconnect (c : Client) : Client :=
  if _is_connected c then
    let c := with_client (_client c ++ [CDisconnect]) c in
    with_is_connected false c
  else c.

(** *** RedisTasqClient *)

Definition RedisTasqClient_connect (c : Client) : Outcome unit * Client :=
  if negb (_is_connected c) then
    let c := with_is_connected true c in
    match Thread_start (_gatherer c) with
    | Returns t => let c := with_gatherer t c in drain (length (_pending c)) c
    | Raises e => (Raises e, c)
    | Blocks => (Blocks, c)
    end
  else (Returns tt, c).

Definition RedisTasqClient_disconnect (c : Client) : Client :=
  if _is_connected c then with_is_connected false c else c.

(** *** RabbitMQTasqClient *)

Definition RabbitMQTasqClient_connect (c : Client) : Outcome unit * Client :=
  if negb (_is_connected c) then
    let c := with_is_connected true c in
    match Thread_start (_gatherer c) with
    | Returns t => let c := with_gatherer t c in drain (length (_pending c)) c
    | Raises e => (Raises e, c)
    | Blocks => (Blocks, c)
    end
  else (Returns tt, c).

Definition RabbitMQTasqClient_disconnect (c : Client) : Client :=
  if _is_connected c then with_is_connected false c else c.

(** *** Method resolution *)

Definition connect (c : Client) : Outcome unit * Client :=
  match cls c with
  | ZMQTasqClient => BaseTasqClient_connect c
  | RedisTasqClient => RedisTasqClient_connect c
  | RabbitMQTasqClient => RabbitMQTasqClient_connect c
  end.

Definition disconnect (c : Client) : Client :=
  match cls c with
  | ZMQTasqClient => BaseTasqClient_disconnect c
  | RedisTasqClient => RedisTasqClient_disconnect c
  | RabbitMQTasqClient => RabbitMQTasqClient_disconnect c
  end.

Definition close (c : Client) : Client :=
  let c := if _is_connected c then disconnect c else c in
  with_client (_client c ++ [CClose]) c.

(** *** The gathering loops *)

(** What the receive primitive of the connection does when the loop calls
    it: it returns a result or [None], or it raises (for the ZMQ connection,
    [zmq.error.ZMQError] or its subclass [ContextTerminated]). *)
Inductive Recv := Got (r : option JobResult) | RecvError.

Section Gathering.
(** Whether [Future.set_result] raises [InvalidStateError] on a future that
    is finished already, as it does from Python 3.8 on; before, it
    overwrote the result. *)
Variable set_result_raises : bool.

Definition set_result (f : TasqFuture) (r : JobResult) : Outcome unit * TasqFuture :=
  if done f && set_result_raises
  then (Raises InvalidStateError, mkFuture (_result f) (S (set_result_calls f)))
  else (Returns tt, mkFuture (Some r) (S (set_result_calls f))).

(** The statement
    [try: self._results[job_result.name].set_result(job_result)
     except KeyError: self._log.error(...)].
    An identity found in [_results] is always one of [futures]. *)
Definition complete (c : Client) (job_result : JobResult) : Outcome unit * Client :=
  match _results c !! name job_result with
  | None => (Returns tt, log (LogError "Can't update result: key not found") c)
  | Some i =>
      let '(o, f) := set_result (default TasqFuture_init (futures c !! i)) job_result in
      (o, with_futures (<[i := f]> (futures c)) c)
  end.

(** The rest of an iteration once [job_result] has been read. *)
Definition gather_rest (job_result : option JobResult) (c : Client) : Client :=
  match job_result with
  | None => c
  | Some r =>
      let c := log (LogDebug "Gathered result: %s") c in
      match complete c r with
      | (Raises e, c) => with_gatherer (Dead e) c
      | (_, c) => c
      end
  end.

(** One iteration of [ZMQTasqClient._gather_results]. *)
Definition ZMQTasqClient_gather_results (ev : Recv) (c : Client) : Client :=
  match _gatherer c with
  | Alive job_result =>
      let '(job_result, c) :=
        match ev with
        | Got r => (Some r, c)
        | RecvError =>
            (job_result, log (LogWarning "ZMQ error while receiving results back") c)
        end in
      match job_result with
      | None => with_gatherer (Dead UnboundLocalError) c
      | Some r => gather_rest r (with_gatherer (Alive job_result) c)
      end
  | Initial | Dead _ => c
  end.

(** One iteration of [RedisTasqClient._gather_results]: nothing catches what
    [recv_result] raises. *)
Definition RedisTasqClient_gather_results (ev : Recv) (c : Client) : Client :=
  match _gatherer c with
  | Alive _ =>
      match ev with
      | Got r => gather_rest r (with_gatherer (Alive (Some r)) c)
      | RecvError => with_gatherer (Dead TransportError) c
      end
  | Initial | Dead _ => c
  end.

(** One iteration of [RabbitMQTasqClient._gather_results]. *)
Definition RabbitMQTasqClient_gather_results (ev : Recv) (c : Client) : Client :=
  match _gatherer c with
  | Alive _ =>
      match ev with
      | Got r => gather_rest r (with_gatherer (Alive (Some r)) c)
      | RecvError => with_gatherer (Dead TransportError) c
      end
  | Initial | Dead _ => c
  end.

Definition gather_results (ev : Recv) (c : Client) : Client :=
  match cls c with
  | ZMQTasqClient => ZMQTasqClient_gather_results ev c
  | RedisTasqClient => RedisTasqClient_gather_results ev c
  | RabbitMQTasqClient => RabbitMQTasqClient_gather_results ev c
  end.

(** The gathering thread runs through the receive events [evs]. *)
Definition gather (evs : list Recv) (c : Client) : Client :=
  foldl (λ c ev, gather_results ev c) c evs.

Definition Timeout_of (v : Value) : Outcome Timeout :=
  match v with
  | VNone => Returns None
  | VInt z => Returns (Some (Finite (inject_Z z)))
  | VStr _ | VUuid _ => Raises TypeError
  end.

(** Whether a wait with this timeout lasts, so that another thread can run
    meanwhile. *)
Definition waits (t : Timeout) : bool :=
  match t with
  | None => true
  | Some n => match wait_of n with WaitExpires => true | _ => false end
  end.

(** [during] is what the gathering thread receives while the caller waits
    in [future.result(timeout)]; a call that does not wait, because the
    timeout is refused or is not positive, sees none of it. *)
Definition schedule_blocking (c : Client) (f : Func) (a : list Value)
    (kw : gmap string Value) (during : list Recv) : Outcome JobResult * Client :=
  if negb (_is_connected c) then (Raises TasqClientNotConnected, c)
  else
    let timeout := default VNone (kw !! "timeout") in
    let kw := delete "timeout" kw in
    match schedule c f a kw with
    | (None, c) => (Raises AttributeError, c)
    | (Some future, c) =>
        match Timeout_of timeout with
        | Returns t =>
            let c := if waits t then gather during c else c in
            (result (default TasqFuture_init (futures c !! future)) t, c)
        | Raises e => (Raises e, c)
        | Blocks => (Blocks, c)
        end
    end.

(** Runs of a client: calls of its user interleaved with iterations of the
    gathering loop. *)
Inductive Op :=
| OConnect
| ODisconnect
| OSchedule (f : Func) (a : list Value) (kw : gmap string Value)
| OGather (ev : Recv).

Definition op_step (c : Client) (o : Op) : Client :=
  match o with
  | OConnect => (connect c).2
  | ODisconnect => disconnect c
  | OSchedule f a kw => (schedule c f a kw).2
  | OGather ev => gather_results ev c
  end.

Definition run_ops (ops : list Op) (c : Client) : Client := foldl op_step c ops.

(** The names of the results that a run hands to the gathering loop. *)
Definition gathered_names (ops : list Op) : list Value :=
  omap (λ o, match o with OGather (Got (Some r)) => Some (name r) | _ => None end) ops.

Definition no_recv_error (ops : list Op) : Prop :=
  Forall (λ o, o ≠ OGather RecvError) ops.
End Gathering.

(** *** TasqClientPool *)

Record TasqClientPool := mkPool { _clients : list Client }.

(** [config] lists the endpoints; all the clients of a pool are ZMQ
    clients. *)
Definition TasqClientPool_init (config : list (string * Z * Z)) : TasqClientPool :=
  mkPool ((λ _, Client_init ZMQTasqClient) <$> config).

(** The loop of [map], from index [idx] on.  [idx] is compared with
    [len(self._clients) - 1] as an integer. *)
Fixpoint map_loop (f : Func) (iterable : list (list Value * gmap string Value))
    (idx : nat) (clients : list Client) : Outcome unit * list Client :=
  match iterable with
  | [] => (Returns tt, clients)
  | (a, kw) :: iterable =>
      let idx := if decide (Z.of_nat idx = (Z.of_nat (length clients) - 1)%Z)
                 then 0 else idx in
      match clients !! idx with
      | None => (Raises IndexError, clients)
      | Some c =>
          match (if negb (_is_connected c) then connect c else (Returns tt, c)) with
          | (Returns _, c) =>
              map_loop f iterable idx (<[idx := (schedule c f a kw).2]> clients)
          | (Raises e, c) => (Raises e, <[idx := c]> clients)
          | (Blocks, c) => (Blocks, <[idx := c]> clients)
          end
      end
  end.

Definition map (p : TasqClientPool) (f : Func)
    (iterable : list (list Value * gmap string Value)) : Outcome unit * TasqClientPool :=
  let '(o, cs) := map_loop f iterable 0 (_clients p) in (o, mkPool cs).

(** *** Notions used in the statements *)

(** A job as [Job_init] makes it: its identifier is not empty, it is known
    by its identifier, and the [name] keyword is not among its keyword
    arguments ([schedule] takes it out). *)
Definition job_wf (j : Job) : Prop :=
  truthy (job_id j) = true ∧ job_name j = job_id j ∧ kwargs j !! "name" = None.

(** Whether [connect] can have the gathering thread running: the base class
    starts it unless it is alive, the Redis and RabbitMQ classes start it
    in any case, and a thread starts only once. *)
Definition gatherer_startable (c : Client) : bool :=
  match cls c, _gatherer c with
  | ZMQTasqClient, (Initial | Alive _) => true
  | (RedisTasqClient | RabbitMQTasqClient), Initial => true
  | _, _ => false
  end.

(** A sequence of [schedule] calls, and the jobs that they construct. *)
Definition schedule_all (calls : list (Func * list Value * gmap string Value))
    (c : Client) : Client :=
  foldl (λ c '(f, a, kw), (schedule c f a kw).2) c calls.

Fixpoint jobs_of (uuid : nat) (calls : list (Func * list Value * gmap string Value))
    : list Job :=
  match calls with
  | [] => []
  | (f, a, kw) :: calls =>
      let '(job, u) := Job_init uuid (default (VStr "") (kw !! "name")) f a
                                (delete "name" kw) in
      job :: jobs_of u calls
  end.

(** Two clients that differ at most in their log and in the local variable
    of the gathering loop. *)
Definition same_but_log (c c' : Client) : Prop :=
  cls c = cls c' ∧ _client c = _client c' ∧ _is_connected c = _is_connected c' ∧
  _results c = _results c' ∧ _pending c = _pending c' ∧
  futures c = futures c' ∧ uuid4 c = uuid4 c' ∧
  match _gatherer c, _gatherer c' with
  | Initial, Initial => True
  | Alive _, Alive _ => True
  | Dead e, Dead e' => e = e'
  | _, _ => False
  end.


(** The results map and the store of futures fit together, after the
    results named in [D] have been gathered: different keys hold different
    futures, every future held is in the store, no future has had
    [set_result] called more than once, and the future under a key whose
    result has not been gathered has not had it called at all. *)
Definition store_ok (D : list Value) (rs : gmap Value nat)
    (fs : list TasqFuture) : Prop :=
  (∀ k1 k2 i, rs !! k1 = Some i → rs !! k2 = Some i → k1 = k2) ∧
  (∀ k i, rs !! k = Some i → (i < length fs)%nat) ∧
  (∀ i f, fs !! i = Some f → (set_result_calls f ≤ 1)%nat) ∧
  (∀ k i f, rs !! k = Some i → k ∉ D → fs !! i = Some f → set_result_calls f = 0).

(** *** The rest of BaseTasqClient and of TasqClientPool *)

Definition BaseTasqClient_pending_jobs (c : Client) : list Job := _pending c.

(** [RedisTasqClient.pending_jobs] returns what the connection answers to
    [get_pending_jobs()], here [backlog]; the queue of the client has no
    part in it. *)
Definition RedisTasqClient_pending_jobs (backlog : list Job) (c : Client)
    : list Job := backlog.

Definition pending_jobs (backlog : list Job) (c : Client) : list Job :=
  match cls c with
  | RedisTasqClient => RedisTasqClient_pending_jobs backlog c
  | ZMQTasqClient | RabbitMQTasqClient => BaseTasqClient_pending_jobs c
  end.

(** [{k: v for k, v in self._results.items() if v.done() is False}]: the
    entries of the results map whose future is not finished. *)
Definition pending_results (c : Client) : gmap Value nat :=
  filter (λ kv, done (default TasqFuture_init (futures c !! kv.2)) = false)
         (_results c).

Definition __enter__ (c : Client) : Outcome unit * Client :=
  if negb (_is_connected c) then connect c else (Returns tt, c).

(** [while self.pending_results(): pass] spins for as long as a future of
    the map is pending: with one pending, the call waits for the gathering
    thread, and it blocks; with none, it goes on to [close]. *)
Definition __exit__ (c : Client) : Outcome unit * Client :=
  if decide (pending_results c = ∅) then (Returns tt, close c) else (Blocks, c).

(** [shutdown] closes every client; the actor system that it shuts down next
    is not part of the state modelled. *)
Definition shutdown (p : TasqClientPool) : TasqClientPool :=
  mkPool (close <$> _clients p).

(** *** More notions used in the statements *)

(** Whether the connection is connected, read off the calls made on it. *)
Definition connection_open (calls : list Call) : bool :=
  foldl (λ b x, match x with
                | CConnect => true
                | CDisconnect | CClose => false
                | CSend _ => b
                end) false calls.

(** The [schedule] calls of a run, and the state of the identifier
    generator after a sequence of them. *)
Definition scheduled (ops : list Op) : list (Func * list Value * gmap string Value) :=
  omap (λ o, match o with OSchedule f a kw => Some (f, a, kw) | _ => None end) ops.

Fixpoint uuid_of (uuid : nat) (calls : list (Func * list Value * gmap string Value))
    : nat :=
  match calls with
  | [] => uuid
  | (f, a, kw) :: calls =>
      uuid_of (Job_init uuid (default (VStr "") (kw !! "name")) f a
                        (delete "name" kw)).2 calls
  end.

(** What the gathering thread may change in a client, besides the log and
    its own state: nothing but futures that the results map holds. *)
Definition gathering_only (c c' : Client) : Prop :=
  cls c' = cls c ∧ _client c' = _client c ∧ _is_connected c' = _is_connected c ∧
  _results c' = _results c ∧ _pending c' = _pending c ∧ uuid4 c' = uuid4 c ∧
  length (futures c') = length (futures c) ∧
  ∀ i, (∀ k, _results c !! k ≠ Some i) → futures c' !! i = futures c !! i.

(** What holds of a client of class [k] after the run [ops]: the jobs that
    it has sent or holds in the queue are the jobs of the [schedule] calls,
    each once; for a ZMQ client the connection is connected when the client
    says so, and a connected client with a live gathering thread holds
    nothing in the queue; of the calls that the history records, the other
    clients make none but [send]. *)
Definition run_invariant (k : ClientClass) (ops : list Op) (c : Client) : Prop :=
  cls c = k ∧
  Forall job_wf (_pending c) ∧
  sent c ++ _pending c ≡ₚ jobs_of 0 (scheduled ops) ∧
  uuid4 c = uuid_of 0 (scheduled ops) ∧
  (k = ZMQTasqClient → connection_open (_client c) = _is_connected c) ∧
  (k = ZMQTasqClient → _is_connected c = true →
   is_alive (_gatherer c) = true → _pending c = []) ∧
  (k ≠ ZMQTasqClient → Forall (λ x, ∃ j, x = CSend j) (_client c)).

(** The [schedule] calls that [map] makes for the pairs of its iterable. *)
Definition map_calls (f : Func) (iterable : list (list Value * gmap string Value))
    : list (Func * list Value * gmap string Value) :=
  (λ '(a, kw), (f, a, kw)) <$> iterable.

(** Every future that the results map holds is in the store. *)
Definition results_allocated (c : Client) : Prop :=
  ∀ k i, _results c !! k = Some i → (i < length (futures c))%nat.

(** Different keys of the results map hold different futures. *)
Definition results_injective (c : Client) : Prop :=
  ∀ k1 k2 i, _results c !! k1 = Some i → _results c !! k2 = Some i → k1 = k2.

(** The result that an iteration of the gathering loop goes on to handle
    after its receive: the result received and, in the ZMQ loop after a
    receive that raised, the result that [job_result] still holds; none when
    the thread is not running. *)
Definition handled (ev : Recv) (c : Client) : option JobResult :=
  match _gatherer c with
  | Alive job_result =>
      match ev with
      | Got r => r
      | RecvError =>
          match cls c, job_result with
          | ZMQTasqClient, Some (Some r) => Some r
          | _, _ => None
          end
      end
  | Initial | Dead _ => None
  end.

(** Whether in the step [o] the gathering loop handles a result under whose
    name the results map holds the future [i]. *)
Definition completes (i : nat) (o : Op) (c : Client) : bool :=
  match o with
  | OGather ev =>
      match handled ev c with
      | Some r => bool_decide (_results c !! name r = Some i)
      | None => false
      end
  | OConnect | ODisconnect | OSchedule _ _ _ => false
  end.

(** How many steps of the run [ops] from [c] do so. *)
Fixpoint completions (strict : bool) (i : nat) (ops : list Op) (c : Client) : nat :=
  match ops with
  | [] => 0
  | o :: ops =>
      (if completes i o c then 1 else 0) + completions strict i ops (op_step strict c o)
  end.


(** *** Sample data *)

Definition result_of (n : Value) (v : Z) : JobResult :=
  mkJobResult n SUCCESS (VInt v) VNone 0.

Definition connected (k : ClientClass) : Client := (connect (Client_init k)).2.

(** A job scheduled and its result gathered. *)
Definition one_result : list Op :=
  [OConnect;
   OSchedule "f" [VInt 1] {["name" := VStr "a"]};
   OGather (Got (Some (result_of (VStr "a") 1)))].


(** A ZMQ client with a job under way whose gathering thread has ended on
    a receive error. *)
Definition waiting_client : Client :=
  gather true [RecvError]
    (schedule (connected ZMQTasqClient) "f" [] {["name" := VStr "a"]}).2.

(** Two jobs buffered, a connection, a disconnection and a third job. *)
Definition buffered_then_connected : list Op :=
  [OSchedule "f" [VInt 1] {["name" := VStr "a"]};
   OSchedule "g" [VInt 2] ∅;
   OConnect;
   OGather (Got None);
   ODisconnect;
   OSchedule "h" [] {["name" := VStr "b"]};
   OConnect].

(** A client is disconnected and two jobs are scheduled on it. *)
Definition two_buffered (c : Client) : Client :=
  schedule_all [("f", [VInt 1], {["name" := VStr "x"]});
                ("g", [VInt 2], {["name" := VStr "y"]})] (disconnect c).

(** A job scheduled and gathered, a receive error, a second job under the
    same name, and a result for it. *)
Definition handled_again : list Op :=
  [OConnect;
   OSchedule "f" [VInt 1] {["name" := VStr "a"]};
   OGather (Got (Some (result_of (VStr "a") 1)));
   OGather RecvError;
   OSchedule "g" [VInt 2] {["name" := VStr "a"]};
   OGather (Got (Some (result_of (VStr "a") 2)))].

Definition two_endpoints : TasqClientPool :=
  TasqClientPool_init [("127.0.0.1", 9000%Z, 9001%Z); ("127.0.0.1", 9002%Z, 9003%Z)].

Definition three_pairs : list (list Value * gmap string Value) :=
  [([VInt 1], {["name" := VStr "a"]});
   ([VInt 2], {["name" := VStr "b"]});
   ([VInt 3], {["name" := VStr "c"]})].

End client.

(** * Properties *)

(** ** Actors and results *)
Module actor_props.
Import actor.

Section Actor.
Context {Msg St : Type} (run : St → RunStep Msg St) (run_init : St).
Implicit Types (a : Actor Msg St) (e : Event Msg) (E : list (Mail Msg)).

Lemma before_exit_messages (d : list Msg) (q : list (Mail Msg)) :
  before_exit ((Message <$> d) ++ q) = d ++ before_exit q.
Proof. induction d as [|m d IH]; csimpl; [done | by rewrite IH]. Qed.

Lemma started_consistent : consistent [] (start run_init (@Actor_init Msg St)).
Proof. by cbv. Qed.

Lemma step_consistent E a e :
  consistent E a → consistent (E ++ enqueued [e]) (step run a e).
Proof.
  unfold consistent. destruct a as [q t th d n]; simpl.
  destruct e as [m| |]; simpl.
  - destruct th as [|s|]; [done| |].
    + intros (-> & ? & ?). by rewrite <-(assoc_L (++)).
    + intros ([-> | ->] & ? & ?); split_and!; auto.
      * left. by rewrite <-(assoc_L (++)).
      * right. by rewrite <-(assoc_L (++)).
  - destruct th as [|s|]; [done| |].
    + intros (-> & ? & ?). by rewrite <-(assoc_L (++)).
    + intros ([-> | ->] & ? & ?); split_and!; auto.
      * left. by rewrite <-(assoc_L (++)).
      * right. by rewrite <-(assoc_L (++)).
  - rewrite (right_id_L [] (++)). unfold thread_step; simpl.
    destruct th as [|s|]; [done| |done].
    intros (-> & -> & ->).
    destruct (run s) as [| |k]; simpl; [by auto | by auto |].
    unfold recv; simpl. destruct q as [|[m|] q]; simpl.
    + done.
    + split_and!; [|done..]. rewrite fmap_app. by rewrite <-(assoc_L (++)).
    + by auto.
Qed.

Lemma exec_snoc evs e a : exec run (evs ++ [e]) a = step run (exec run evs a) e.
Proof. unfold exec. by rewrite foldl_app. Qed.

Lemma enqueued_app (evs1 evs2 : list (Event Msg)) :
  enqueued (evs1 ++ evs2) = enqueued evs1 ++ enqueued evs2.
Proof. unfold enqueued. apply omap_app. Qed.

Lemma exec_consistent evs E a :
  consistent E a → consistent (E ++ enqueued evs) (exec run evs a).
Proof.
  induction evs as [|e evs IH] using rev_ind; intros H.
  - unfold enqueued; simpl. by rewrite (right_id_L [] (++)).
  - rewrite exec_snoc, enqueued_app, (assoc_L (++)).
    by apply step_consistent, IH.
Qed.

(** Once the thread is over nothing that is sent, and no further step,
    changes what the actor has processed. *)
Lemma step_exited a e :
  thread a = Exited →
  thread (step run a e) = Exited ∧ received (step run a e) = received a ∧
  exits (step run a e) = exits a ∧ _terminated (step run a e) = _terminated a.
Proof.
  intros H. destruct e; simpl; unfold thread_step; rewrite ?H; by simpl.
Qed.

Lemma exec_exited evs a :
  thread a = Exited →
  thread (exec run evs a) = Exited ∧ received (exec run evs a) = received a ∧
  exits (exec run evs a) = exits a ∧ _terminated (exec run evs a) = _terminated a.
Proof.
  induction evs as [|e evs IH] using rev_ind; intros H; [done|].
  rewrite exec_snoc. destruct (IH H) as (Ht & Hr & He & Hf).
  destruct (step_exited (exec run evs a) e Ht) as (? & ? & ? & ?).
  split_and!; congruence.
Qed.

Lemma join_returns a : join a = Returns tt ↔ _terminated a = true.
Proof. unfold join, Event_wait. destruct (_terminated a); split; by intros. Qed.

(** C10: take any run of a started actor, that is any interleaving of
    [send], [close] (any number of them) and steps of its thread.  If [join]
    returns after it, the thread is over and has entered its terminal state
    once; the messages it has processed were all enqueued before the first
    [ActorExit], in that order; and whatever is sent or closed afterwards, no
    further message is processed and the actor stays terminated. *)
Theorem close_join_run_loop_exited (evs : list (Event Msg)) :
  let a := exec run evs (start run_init Actor_init) in
  join a = Returns tt →
  thread a = Exited ∧ exits a = 1 ∧
  received a `prefix_of` before_exit (enqueued evs) ∧
  ∀ more : list (Event Msg),
    let a' := exec run more a in
    received a' = received a ∧ thread a' = Exited ∧ exits a' = 1 ∧
    join a' = Returns tt.
Proof.
  intros a Hjoin. apply join_returns in Hjoin.
  pose proof (exec_consistent evs [] _ started_consistent) as Hc.
  fold a in Hc. simpl in Hc. unfold consistent in Hc.
  destruct (thread a) eqn:Hth; [done | destruct Hc as (_ & ? & _); congruence |].
  destruct Hc as (HE & _ & Hex).
  split_and!; [done | done | |].
  - destruct HE as [-> | ->]; rewrite before_exit_messages;
      by apply prefix_app_r.
  - intros more a'. subst a'.
    destruct (exec_exited more a Hth) as (? & ? & He & Hf).
    split_and!; [done | done | by rewrite He |].
    apply join_returns. by rewrite Hf.
Qed.
End Actor.

Lemma close_join_run_loop_exited_witness :
  join (exec recv_for_ever sample_events (start tt Actor_init)) = Returns tt ∧
  received (exec recv_for_ever sample_events (start tt Actor_init)) = [1] ∧
  before_exit (enqueued sample_events) = [1] ∧
  thread (exec recv_for_ever sample_events (start tt Actor_init)) = Exited.
Proof.
  split; [reflexivity|]. split; [reflexivity|]. split; [reflexivity|].
  apply (close_join_run_loop_exited recv_for_ever tt sample_events).
  reflexivity.
Defined.


(** Which timeouts a wait refuses: the numbers above [TIMEOUT_MAX]. *)
Lemma wait_refused (n : Number) :
  wait_of n = WaitRefused ↔
  n = PlusInfinity ∨ ∃ q, n = Finite q ∧ (TIMEOUT_MAX < q)%Q.
Proof.
  destruct n as [q| | |]; simpl.
  - destruct (Qlt_le_dec TIMEOUT_MAX q) as [Hlt|Hle].
    + split; [|done]. intros _. right. by exists q.
    + split.
      * by destruct (Qlt_le_dec 0 q).
      * intros [?|(q' & [= <-] & Hlt)]; [done|].
        by destruct (Qlt_not_le _ _ Hlt).
  - split; [by left | done].
  - split; [done | intros [?|(? & ? & _)]; done].
  - split; [done | intros [?|(? & ? & _)]; done].
Qed.

(** *** Delivery and shutdown *)
Section Delivery.
Context {Msg St : Type} (run : St → RunStep Msg St) (run_init : St).
Implicit Types (a : Actor Msg St) (ms : list Msg).

Lemma exec_cons (e : Event Msg) evs a :
  exec run (e :: evs) a = exec run evs (step run a e).
Proof. done. Qed.

Lemma exec_app (evs1 evs2 : list (Event Msg)) a :
  exec run (evs1 ++ evs2) a = exec run evs2 (exec run evs1 a).
Proof. unfold exec. by rewrite foldl_app. Qed.

Lemma exec_sends ms :
  ∀ a, exec run (ESend <$> ms) a =
       mkActor (_mailbox a ++ (Message <$> ms)) (_terminated a) (thread a)
               (received a) (exits a).
Proof.
  induction ms as [|m ms IH]; intros a.
  - simpl. rewrite (right_id_L [] (++)). by destruct a.
  - rewrite fmap_cons, exec_cons, IH. simpl.
    by rewrite <-(assoc_L (++)).
Qed.

(** A thread whose [run] keeps receiving takes the messages at the head of
    the mailbox one per step, in order. *)
Lemma exec_thread_steps ms :
  always_receives run →
  ∀ a s rest,
    thread a = Running s → _mailbox a = (Message <$> ms) ++ rest →
    ∃ s', exec run (replicate (length ms) EThread) a =
          mkActor rest (_terminated a) (Running s') (received a ++ ms) (exits a).
Proof.
  intros Hrun. induction ms as [|m ms IH]; intros a s rest Hth Hq.
  - exists s. simpl in *. rewrite (right_id_L [] (++)).
    destruct a; simpl in *. by subst.
  - cbn [length replicate]. rewrite exec_cons.
    cbn [step]. unfold thread_step, recv. rewrite Hth, Hq. rewrite fmap_cons. destruct (Hrun s) as [k ->]. simpl.
    edestruct (IH (mkActor ((Message <$> ms) ++ rest) (_terminated a)
                     (Running (k m)) (received a ++ [m]) (exits a)))
      as [s' ->]; [done | done |].
    exists s'. simpl. by rewrite <-(assoc_L (++)).
Qed.

(** X1: whatever is sent to an actor, before or after [start], reaches a
    [run] that keeps receiving in the order in which it was sent, one
    message for each step of the thread; the actor is then idle, with an
    empty mailbox, and it has not terminated. *)
Theorem messages_received_in_order (ms1 ms2 : list Msg) :
  always_receives run →
  received (exec run ((ESend <$> ms2) ++ replicate (length (ms1 ++ ms2)) EThread)
              (start run_init (exec run (ESend <$> ms1) Actor_init)))
    = ms1 ++ ms2 ∧
  _mailbox (exec run ((ESend <$> ms2) ++ replicate (length (ms1 ++ ms2)) EThread)
              (start run_init (exec run (ESend <$> ms1) Actor_init)))
    = [] ∧
  join (exec run ((ESend <$> ms2) ++ replicate (length (ms1 ++ ms2)) EThread)
          (start run_init (exec run (ESend <$> ms1) Actor_init)))
    = Blocks.
Proof.
  intros Hrun. rewrite exec_app, !exec_sends. unfold start. simpl.
  edestruct (exec_thread_steps (ms1 ++ ms2) Hrun
               (mkActor ((Message <$> ms1) ++ (Message <$> ms2)) false
                  (Running run_init) [] 0) run_init []) as [s' ->];
    [done | simpl; by rewrite fmap_app, (right_id_L [] (++)) |].
  by simpl.
Qed.

(** X2: when [close] follows the messages [ms], a [run] that keeps
    receiving processes all of [ms], in order, and the next step of the
    thread ends it: [join] returns, and what was sent after [close] is still
    in the mailbox, unprocessed. *)
Theorem close_after_messages (ms more : list Msg) :
  always_receives run →
  received (exec run ((ESend <$> ms) ++ [EClose] ++ (ESend <$> more) ++
                        replicate (S (length ms)) EThread)
              (start run_init Actor_init)) = ms ∧
  join (exec run ((ESend <$> ms) ++ [EClose] ++ (ESend <$> more) ++
                    replicate (S (length ms)) EThread)
          (start run_init Actor_init)) = Returns tt ∧
  _mailbox (exec run ((ESend <$> ms) ++ [EClose] ++ (ESend <$> more) ++
                        replicate (S (length ms)) EThread)
              (start run_init Actor_init)) = Message <$> more.
Proof.
  intros Hrun. rewrite replicate_S_end.
  rewrite exec_app, exec_sends, exec_app.
  change (exec run [EClose] ?a) with (close a).
  rewrite exec_app, exec_sends, exec_app.
  edestruct (exec_thread_steps ms Hrun
               (mkActor (((Message <$> ms) ++ [ActorExitClass]) ++ (Message <$> more))
                  false (Running run_init) [] 0) run_init
               (ActorExitClass :: (Message <$> more))) as [s' Hs'];
    [done | simpl; by rewrite <-(assoc_L (++)) |].
  unfold close, send, start. simpl. rewrite Hs'.
  unfold exec. simpl. unfold thread_step, recv. simpl.
  destruct (Hrun s') as [k ->]. by simpl.
Qed.

Lemma step_no_close a (e : Event Msg) :
  e ≠ EClose →
  (∃ s, thread a = Running s) → _terminated a = false →
  Forall (λ x, x ≠ ActorExitClass) (_mailbox a) →
  always_receives run →
  (∃ s, thread (step run a e) = Running s) ∧ _terminated (step run a e) = false ∧
  Forall (λ x, x ≠ ActorExitClass) (_mailbox (step run a e)).
Proof.
  intros He [s Hs] Ht Hq Hrun. destruct e as [m| |]; [|done|]; simpl.
  - split_and!; [by eauto | done |]. apply Forall_app. split; [done|].
    by apply Forall_singleton.
  - unfold thread_step, recv. rewrite Hs. destruct (Hrun s) as [k ->].
    destruct (_mailbox a) as [|[m|] q] eqn:Hm; simpl.
    + rewrite Hs, Hm. by eauto.
    + split_and!; [by eauto | done |]. by eapply Forall_cons_1.
    + by apply Forall_cons_1 in Hq as [? _].
Qed.

(** X3: an actor whose [run] keeps receiving does not terminate unless
    [close] is called: after any run without a [close], [join] blocks. *)
Theorem no_exit_without_close (evs : list (Event Msg)) :
  always_receives run → EClose ∉ evs →
  join (exec run evs (start run_init Actor_init)) = Blocks ∧
  ∃ s, thread (exec run evs (start run_init Actor_init)) = Running s.
Proof.
  intros Hrun Hevs.
  assert ((∃ s, thread (exec run evs (start run_init Actor_init)) = Running s) ∧
          _terminated (exec run evs (start run_init Actor_init)) = false ∧
          Forall (λ x, x ≠ ActorExitClass)
            (_mailbox (exec run evs (start run_init (@Actor_init Msg St)))))
    as (Hs & Ht & _).
  { induction evs as [|e evs IH] using rev_ind.
    - simpl. split_and!; [by eauto | done | done].
    - rewrite exec_app. simpl.
      assert (EClose ∉ evs) as Hevs' by (intros ?; apply Hevs, elem_of_app; by left).
      destruct (IH Hevs') as (? & ? & ?).
      apply step_no_close; try done.
      intros ->. apply Hevs, elem_of_app. right. by apply list_elem_of_singleton. }
  split; [|done]. unfold join, Event_wait. by rewrite Ht.
Qed.
End Delivery.

Lemma recv_for_ever_receives : always_receives recv_for_ever.
Proof. intros s. by eexists. Defined.

Lemma messages_received_in_order_witness :
  received (exec recv_for_ever ((ESend <$> [3]) ++ replicate (length ([1; 2] ++ [3])) EThread)
              (start tt (exec recv_for_ever (ESend <$> [1; 2]) Actor_init)))
    = [1; 2; 3].
Proof.
  exact (proj1 (messages_received_in_order recv_for_ever tt [1; 2] [3]
                  recv_for_ever_receives)).
Defined.

Lemma close_after_messages_witness :
  _mailbox (exec recv_for_ever ((ESend <$> [1; 2]) ++ [EClose] ++ (ESend <$> [3]) ++
                                  replicate (S (length [1; 2])) EThread)
              (start tt Actor_init)) = Message <$> [3].
Proof.
  exact (proj2 (proj2 (close_after_messages recv_for_ever tt [1; 2] [3]
                         recv_for_ever_receives))).
Defined.

Lemma no_exit_without_close_witness :
  join (exec recv_for_ever [ESend 1; EThread; EThread; ESend 2]
          (start tt Actor_init)) = Blocks.
Proof.
  refine (proj1 (no_exit_without_close recv_for_ever tt
                   [ESend 1; EThread; EThread; ESend 2]
                   recv_for_ever_receives _)).
  intros H. repeat (apply elem_of_cons in H as [H|H]; [discriminate H|]).
  by apply elem_of_nil in H.
Defined.

End actor_props.

(** ** Clients *)
Module client_props.
Import client.

(** The scenario of the specification: a job scheduled while disconnected
    is buffered, [connect] sends it, and its result reaches the future that
    the results map holds under its name. *)
Example scenario_buffer_then_connect :
  let c0 := Client_init ZMQTasqClient in
  let '(h, c1) := schedule c0 "f" [VInt 1; VInt 2] {["name" := VStr "a"]} in
  let '(o, c2) := connect c1 in
  let c3 := gather_results true (Got (Some (result_of (VStr "a") 3))) c2 in
  h = None ∧ length (_pending c1) = 1 ∧ o = Returns tt ∧
  job_id <$> sent c2 = [VStr "a"] ∧ _pending c2 = [] ∧
  (_results c3 !! VStr "a") = Some 0 ∧
  (_result <$> futures c3 !! 0) = Some (Some (result_of (VStr "a") 3)).
Proof. vm_compute. by repeat split. Qed.

(** Unfolds the field updates of a client. *)
Ltac fields :=
  unfold log, with_client, with_is_connected, with_results, with_pending,
    with_gatherer, with_log, with_futures, with_uuid4, deque_appendleft in *;
  simpl in *.

(** *** What [schedule] does *)

Lemma schedule_disconnected c f a kw :
  _is_connected c = false →
  let '(job, u) := Job_init (uuid4 c) (default (VStr "") (kw !! "name")) f a
                            (delete "name" kw) in
  schedule c f a kw =
    (None, mkClient (cls c) (_client c) false (_results c) (job :: _pending c)
             (_gatherer c)
             (_log c ++ [LogDebug "Client not connected, appending job to pending queue."])
             (futures c) u).
Proof.
  intros H. unfold schedule.
  destruct (Job_init _ _ _ _ _) as [job u]. fields. by rewrite H.
Qed.

Lemma schedule_connected c f a kw :
  _is_connected c = true →
  let '(job, u) := Job_init (uuid4 c) (default (VStr "") (kw !! "name")) f a
                            (delete "name" kw) in
  schedule c f a kw =
    (Some (length (futures c)),
     mkClient (cls c) (_client c ++ [CSend job]) true
       (<[default (VStr "") (kw !! "name") := length (futures c)]> (_results c))
       (_pending c) (_gatherer c) (_log c) (futures c ++ [TasqFuture_init]) u).
Proof.
  intros H. unfold schedule.
  destruct (Job_init _ _ _ _ _) as [job u]. fields. by rewrite H.
Qed.

(** C9: on a disconnected client [schedule_blocking] raises
    [TasqClientNotConnected] and leaves the client as it was, the pending
    queue and the results map included, whatever the arguments and whatever
    the gathering thread receives meanwhile. *)
Theorem schedule_blocking_not_connected (strict : bool) (c : Client) (f : Func)
    (a : list Value) (kw : gmap string Value) (during : list Recv) :
  _is_connected c = false →
  schedule_blocking strict c f a kw during = (Raises TasqClientNotConnected, c).
Proof. intros H. unfold schedule_blocking. by rewrite H. Qed.

Lemma schedule_blocking_not_connected_witness :
  _is_connected (Client_init ZMQTasqClient) = false ∧
  schedule_blocking true (Client_init ZMQTasqClient) "f" [VInt 1] ∅
      [Got (Some (result_of (VStr "a") 3))]
    = (Raises TasqClientNotConnected, Client_init ZMQTasqClient).
Proof.
  split; [reflexivity|].
  apply (schedule_blocking_not_connected true (Client_init ZMQTasqClient)).
  reflexivity.
Defined.




(** The same reads with a timeout that the wait refuses. *)
Example result_timeout_too_large :
  actor.result (@actor.Result_init Z) (Some (Finite (inject_Z (10 ^ 10))))
    = Raises OverflowError ∧
  result TasqFuture_init (Some PlusInfinity) = Raises OverflowError ∧
  result TasqFuture_init (Some NaN) = Raises TimeoutError.
Proof. by vm_compute. Qed.

(** *** [connect] and the gathering thread *)

Lemma connect_connected c : _is_connected c = true → connect c = (Returns tt, c).
Proof.
  intros H. unfold connect, BaseTasqClient_connect, RedisTasqClient_connect,
    RabbitMQTasqClient_connect. rewrite H. by destruct (cls c).
Qed.

(** The Redis and RabbitMQ clients start the thread on every connection. *)
Lemma connect_started_thread c :
  cls c ≠ ZMQTasqClient → _is_connected c = false → _gatherer c ≠ Initial →
  (connect c).1 = Raises RuntimeError ∧ _pending (connect c).2 = _pending c.
Proof.
  intros Hk Hc Hg. unfold connect, RedisTasqClient_connect,
    RabbitMQTasqClient_connect. rewrite Hc.
  destruct (cls c); [done | |]; fields; by destruct (_gatherer c).
Qed.

(** C2 fails on the code: a Redis or a RabbitMQ client that is connected,
    disconnected and connected again raises [RuntimeError] in the second
    [connect], which starts the gathering thread a second time.  The ZMQ
    client, whose [connect] is that of the base class and looks at
    [is_alive] first, reconnects. *)
Theorem reconnect_starts_gatherer_again :
  (connect (disconnect (connected RedisTasqClient))).1 = Raises RuntimeError ∧
  (connect (disconnect (connected RabbitMQTasqClient))).1 = Raises RuntimeError ∧
  (connect (disconnect (connected ZMQTasqClient))).1 = Returns tt.
Proof. by vm_compute. Qed.

(** C3 fails on the code: scheduled on a connected client without a name,
    a job gets a generated identifier as its name, and its future is stored
    under the empty string. *)
Theorem schedule_unnamed_key :
  (schedule (connected ZMQTasqClient) "f" [VInt 1] ∅).1 = Some 0 ∧
  job_name <$> sent (schedule (connected ZMQTasqClient) "f" [VInt 1] ∅).2
    = [VUuid 0] ∧
  _results (schedule (connected ZMQTasqClient) "f" [VInt 1] ∅).2 !! VUuid 0
    = None ∧
  _results (schedule (connected ZMQTasqClient) "f" [VInt 1] ∅).2 !! VStr ""
    = Some 0.
Proof. by vm_compute. Qed.

(** C7 fails on the code: when the first receive of the ZMQ loop raises,
    [job_result] is read unbound and the thread ends with
    [UnboundLocalError]; when a receive raises after a result has been
    gathered, that result is handled a second time. *)
Theorem zmq_receive_error (strict : bool) :
  _gatherer (connected ZMQTasqClient) = Alive None ∧
  _gatherer (gather_results strict RecvError (connected ZMQTasqClient))
    = Dead UnboundLocalError ∧
  set_result_calls <$>
    futures (gather strict [Got (Some (result_of (VStr "a") 3)); RecvError]
               (schedule (connected ZMQTasqClient) "f" []
                         {["name" := VStr "a"]}).2) !! 0
    = Some 2.
Proof. destruct strict; by vm_compute. Qed.

(** *** The gathering loop and unknown names *)

Lemma same_but_log_refl c : same_but_log c c.
Proof. unfold same_but_log. split_and!; try done. by destruct (_gatherer c). Qed.







(** *** The pending queue *)

Lemma deque_pop_snoc {A} (q : list A) (x : A) : deque_pop (q ++ [x]) = Some (x, q).
Proof. unfold deque_pop. by rewrite reverse_snoc, reverse_involutive. Qed.

Lemma drain_unfold n c :
  drain n c =
    match deque_pop (_pending c) with
    | None => (Returns tt, c)
    | Some (job, q) =>
        match n with
        | 0 => (Blocks, c)
        | S n =>
            match kwargs job !! "name" with
            | Some _ => (Raises TypeError, with_pending q c)
            | None =>
                drain n (schedule (with_pending q c) (func job) (args job)
                           (<["name" := job_id job]> (kwargs job))).2
            end
        end
    end.
Proof. by destruct n. Qed.

Lemma Job_init_wf u n f a kw : job_wf (Job_init u n f a (delete "name" kw)).1.
Proof.
  unfold Job_init, job_wf. destruct (truthy n) eqn:Hn; simpl;
    by rewrite lookup_delete_eq.
Qed.

(** A buffered job that is scheduled again under its identifier is the same
    job, and no identifier is drawn for it. *)
Lemma Job_init_again u j :
  job_wf j →
  Job_init u (default (VStr "") (<["name" := job_id j]> (kwargs j) !! "name"))
    (func j) (args j) (delete "name" (<["name" := job_id j]> (kwargs j)))
  = (j, u).
Proof.
  intros (Ht & Hn & Hk).
  rewrite lookup_insert_eq, delete_insert_eq, delete_id by done. simpl.
  unfold Job_init. rewrite Ht. destruct j; simpl in *. by subst.
Qed.

Lemma sent_snoc cl j : 
  omap (λ x, match x with CSend j => Some j | _ => None end) (cl ++ [CSend j])
  = omap (λ x, match x with CSend j => Some j | _ => None end) cl ++ [j].
Proof. by rewrite omap_app. Qed.

Lemma drain_connected q :
  ∀ n c,
    _is_connected c = true → _pending c = q → Forall job_wf q →
    (length q ≤ n)%nat →
    ∃ c', drain n c = (Returns tt, c') ∧ sent c' = sent c ++ reverse q ∧
          _pending c' = [] ∧ _is_connected c' = true ∧ cls c' = cls c ∧
          _gatherer c' = _gatherer c ∧ uuid4 c' = uuid4 c.
Proof.
  induction q as [|j q IH] using rev_ind; intros n c Hc Hq Hwf Hn.
  - exists c. rewrite drain_unfold, Hq. simpl.
    by rewrite reverse_nil, (right_id_L [] (++)).
  - rewrite drain_unfold, Hq, deque_pop_snoc.
    rewrite length_app in Hn; simpl in Hn.
    destruct n as [|n]; [lia|].
    destruct (proj1 (Forall_app _ _ _) Hwf) as [Hwf' Hj'].
    pose proof (proj1 (Forall_singleton _ _) Hj') as Hj.
    destruct Hj as (Ht & Hnm & Hk). rewrite Hk.
    assert (job_wf j) as Hj by done.
    pose proof (schedule_connected (with_pending q c) (func j) (args j)
                  (<["name" := job_id j]> (kwargs j)) Hc) as Hs.
    rewrite Job_init_again in Hs by done. rewrite Hs. simpl.
    edestruct (IH n) as (c' & Hd & Hsent & Hp & Hi & Hcls & Hg & Hu);
      [| | exact Hwf' | |].
    4: { exists c'. split; [exact Hd|]. rewrite Hsent, Hp, Hi, Hcls, Hg, Hu.
         unfold sent; simpl. rewrite sent_snoc, reverse_snoc.
         by rewrite <-(assoc_L (++)). }
    all: simpl; try done. lia.
Qed.

Lemma jobs_of_wf calls : ∀ u, Forall job_wf (jobs_of u calls).
Proof.
  induction calls as [|[[f a] kw] calls IH]; intros u; simpl; [done|].
  pose proof (Job_init_wf u (default (VStr "") (kw !! "name")) f a kw) as Hwf.
  destruct (Job_init _ _ _ _ _) as [job u']. by constructor.
Qed.

Lemma jobs_of_length calls : ∀ u, length (jobs_of u calls) = length calls.
Proof.
  induction calls as [|[[f a] kw] calls IH]; intros u; simpl; [done|].
  destruct (Job_init _ _ _ _ _) as [job u']. simpl. by rewrite IH.
Qed.

(** Scheduling on a disconnected client only buffers: nothing is sent, no
    future is created. *)
Lemma schedule_all_disconnected calls :
  ∀ c, _is_connected c = false →
    _is_connected (schedule_all calls c) = false ∧
    _pending (schedule_all calls c)
      = reverse (jobs_of (uuid4 c) calls) ++ _pending c ∧
    _client (schedule_all calls c) = _client c ∧
    cls (schedule_all calls c) = cls c ∧
    _gatherer (schedule_all calls c) = _gatherer c ∧
    _results (schedule_all calls c) = _results c ∧
    futures (schedule_all calls c) = futures c.
Proof.
  induction calls as [|[[f a] kw] calls IH]; intros c Hc; [done|].
  simpl. pose proof (schedule_disconnected c f a kw Hc) as Hs.
  destruct (Job_init _ _ _ _ _) as [job u]. rewrite Hs. simpl.
  edestruct (IH (mkClient (cls c) (_client c) false (_results c)
                   (job :: _pending c) (_gatherer c)
                   (_log c ++ [LogDebug "Client not connected, appending job to pending queue."])
                   (futures c) u)) as (H1 & H2 & H3 & H4 & H5 & H6 & H7); [done|].
  simpl in *. split_and!; try done.
  rewrite H2, reverse_cons. by rewrite <-(assoc_L (++)).
Qed.

Lemma connect_disconnected c :
  _is_connected c = false → gatherer_startable c = true →
  ∃ c1, connect c = drain (length (_pending c)) c1 ∧
        _is_connected c1 = true ∧ _pending c1 = _pending c ∧
        sent c1 = sent c ∧ is_alive (_gatherer c1) = true.
Proof.
  intros Hc Hg. unfold gatherer_startable in Hg.
  unfold connect, BaseTasqClient_connect, RedisTasqClient_connect,
    RabbitMQTasqClient_connect. rewrite Hc. simpl.
  destruct (cls c) eqn:Hk, (_gatherer c) eqn:Ht; try done; fields;
    rewrite ?Ht; simpl; eexists; (split; [reflexivity|]); simpl;
    split_and!; try done; unfold sent; simpl; rewrite omap_app; simpl;
    by rewrite (right_id_L [] (++)).
Qed.

(** X23: take a disconnected client whose gathering thread [connect] can
    have running (for a ZMQ client a thread that has not ended, for a Redis
    or RabbitMQ client one that has never been started) and whose buffered
    jobs are as [schedule] builds them.  [N] [schedule] calls send nothing,
    and the [connect] that follows returns after sending what was buffered
    before and then the [N] jobs, each once and in the order of the calls
    (so exactly the [N] jobs when nothing was buffered before); the pending
    queue is empty afterwards, and a second [connect] sends nothing
    more. *)
Theorem pending_drained_in_order (c : Client)
    (calls : list (Func * list Value * gmap string Value)) :
  _is_connected c = false → gatherer_startable c = true →
  Forall job_wf (_pending c) →
  sent (schedule_all calls c) = sent c ∧
  (connect (schedule_all calls c)).1 = Returns tt ∧
  sent (connect (schedule_all calls c)).2
    = sent c ++ reverse (_pending c) ++ jobs_of (uuid4 c) calls ∧
  length (jobs_of (uuid4 c) calls) = length calls ∧
  _pending (connect (schedule_all calls c)).2 = [] ∧
  _is_connected (connect (schedule_all calls c)).2 = true ∧
  connect (connect (schedule_all calls c)).2
    = (Returns tt, (connect (schedule_all calls c)).2).
Proof.
  intros Hc Hg Hwf.
  destruct (schedule_all_disconnected calls c Hc)
    as (H1 & H2 & H3 & H4 & H5 & _ & _).
  assert (gatherer_startable (schedule_all calls c) = true) as Hg'.
  { unfold gatherer_startable. by rewrite H4, H5. }
  destruct (connect_disconnected _ H1 Hg') as (c1 & Hcon & Hi & Hp & Hs & _).
  destruct (drain_connected (_pending c1) (length (_pending (schedule_all calls c)))
              c1 Hi eq_refl) as (c2 & Hd & Hs2 & Hp2 & Hi2 & _).
  { rewrite Hp, H2. apply Forall_app. split; [|done].
    apply Forall_reverse, jobs_of_wf. }
  { by rewrite Hp. }
  rewrite Hcon, Hd. simpl.
  split_and!; try done.
  - unfold sent. by rewrite H3.
  - rewrite Hs2, Hs, Hp, H2. unfold sent. rewrite H3.
    by rewrite reverse_app, reverse_involutive.
  - apply jobs_of_length.
  - by apply connect_connected.
Qed.

Lemma pending_drained_in_order_witness :
  job_id <$> sent (connect (schedule_all
      [("f", [VInt 1], {["name" := VStr "a"]}); ("g", [], ∅);
       ("h", [VInt 2], {["name" := VStr "b"]})]
      (Client_init RedisTasqClient))).2
  = [VStr "a"; VUuid 0; VStr "b"].
Proof.
  pose proof (pending_drained_in_order (Client_init RedisTasqClient)
      [("f", [VInt 1], {["name" := VStr "a"]}); ("g", [], ∅);
       ("h", [VInt 2], {["name" := VStr "b"]})]
      eq_refl eq_refl (Forall_nil_2 _)) as (_ & _ & -> & _).
  reflexivity.
Defined.

(** C4 fails on the code: two jobs scheduled on a Redis client that has
    been connected and disconnected are in the pending queue, and the
    [connect] that follows raises [RuntimeError] where it starts the
    gathering thread a second time, before the loop that empties the queue:
    no job is sent, both stay in the queue, and the client is left marked
    as connected, so that a further [connect] returns without sending them.
    The [connect] of a ZMQ client whose gathering thread has ended does the
    same. *)
Theorem reconnect_sends_no_pending_job :
  _is_connected (two_buffered (connected RedisTasqClient)) = false ∧
  sent (two_buffered (connected RedisTasqClient)) = [] ∧
  job_id <$> _pending (two_buffered (connected RedisTasqClient))
    = [VStr "y"; VStr "x"] ∧
  (connect (two_buffered (connected RedisTasqClient))).1 = Raises RuntimeError ∧
  sent (connect (two_buffered (connected RedisTasqClient))).2 = [] ∧
  job_id <$> _pending (connect (two_buffered (connected RedisTasqClient))).2
    = [VStr "y"; VStr "x"] ∧
  connect (connect (two_buffered (connected RedisTasqClient))).2
    = (Returns tt, (connect (two_buffered (connected RedisTasqClient))).2) ∧
  _is_connected (two_buffered waiting_client) = false ∧
  job_id <$> sent (two_buffered waiting_client) = [VStr "a"] ∧
  (connect (two_buffered waiting_client)).1 = Raises RuntimeError ∧
  job_id <$> sent (connect (two_buffered waiting_client)).2 = [VStr "a"] ∧
  job_id <$> _pending (connect (two_buffered waiting_client)).2
    = [VStr "y"; VStr "x"].
Proof. by vm_compute. Qed.

(** *** Futures and the results map *)

Lemma store_ok_weaken D k rs fs : store_ok D rs fs → store_ok (D ++ [k]) rs fs.
Proof.
  intros (Hinj & Halloc & Honce & Hfresh). split_and!; try done.
  intros k' i f Hk Hn. apply (Hfresh k' i f Hk).
  intros Hin. apply Hn, elem_of_app. by left.
Qed.

Lemma store_ok_new D k rs fs :
  store_ok D rs fs → store_ok D (<[k := length fs]> rs) (fs ++ [TasqFuture_init]).
Proof.
  intros (Hinj & Halloc & Honce & Hfresh). split_and!.
  - intros k1 k2 i. rewrite !lookup_insert.
    repeat case_decide; subst; try done; intros H1 H2; simplify_eq.
    + apply Halloc in H2. lia.
    + apply Halloc in H1. lia.
    + by eapply Hinj.
  - intros k' i. rewrite lookup_insert, length_app. simpl.
    case_decide; intros Hl; simplify_eq; [lia|]. apply Halloc in Hl. lia.
  - intros i f Hf. apply lookup_app_Some in Hf as [Hf | [_ Hf]].
    + by eapply Honce.
    + apply list_lookup_singleton_Some in Hf as [_ <-]. simpl. lia.
  - intros k' i f. rewrite lookup_insert.
    case_decide; intros Hl Hn Hf; simplify_eq.
    + rewrite lookup_app_r, Nat.sub_diag in Hf by lia.
      simpl in Hf. by simplify_eq.
    + pose proof (Halloc _ _ Hl). rewrite lookup_app_l in Hf by done.
      by eapply Hfresh.
Qed.

Lemma store_ok_set D k i f f' rs fs :
  store_ok D rs fs → k ∉ D → rs !! k = Some i → fs !! i = Some f →
  set_result_calls f' = S (set_result_calls f) →
  store_ok (D ++ [k]) rs (<[i := f']> fs).
Proof.
  intros (Hinj & Halloc & Honce & Hfresh) Hk Hi Hf Hcalls. split_and!.
  - done.
  - intros k' j Hj. rewrite length_insert. by eapply Halloc.
  - intros j g Hg. destruct (decide (i = j)) as [<-|Hne].
    + rewrite list_lookup_insert_eq in Hg by (by eapply lookup_lt_Some).
      simplify_eq. rewrite Hcalls. by rewrite (Hfresh k i f).
    + rewrite list_lookup_insert_ne in Hg by done. by eapply Honce.
  - intros k' j g Hj Hn Hg.
    assert (k' ≠ k) as Hkk.
    { intros ->. apply Hn, elem_of_app. right. by apply list_elem_of_singleton. }
    assert (i ≠ j) as Hne.
    { intros ->. apply Hkk. by eapply Hinj. }
    rewrite list_lookup_insert_ne in Hg by done.
    apply (Hfresh k' j g Hj); [|done].
    intros Hin. apply Hn, elem_of_app. by left.
Qed.

Lemma schedule_store D c f a kw :
  store_ok D (_results c) (futures c) →
  store_ok D (_results (schedule c f a kw).2) (futures (schedule c f a kw).2).
Proof.
  intros H. destruct (_is_connected c) eqn:Hc.
  - pose proof (schedule_connected c f a kw Hc) as Hs.
    destruct (Job_init _ _ _ _ _) as [job u]. rewrite Hs. simpl.
    by apply store_ok_new.
  - pose proof (schedule_disconnected c f a kw Hc) as Hs.
    destruct (Job_init _ _ _ _ _) as [job u]. by rewrite Hs.
Qed.

Lemma drain_store D n :
  ∀ c, store_ok D (_results c) (futures c) →
       store_ok D (_results (drain n c).2) (futures (drain n c).2).
Proof.
  induction n as [|n IH]; intros c H; rewrite drain_unfold;
    destruct (deque_pop (_pending c)) as [[job q]|]; try done.
  destruct (kwargs job !! "name"); [done|].
  apply IH. by apply schedule_store.
Qed.

Lemma connect_store D c :
  store_ok D (_results c) (futures c) →
  store_ok D (_results (connect c).2) (futures (connect c).2).
Proof.
  intros H. unfold connect, BaseTasqClient_connect, RedisTasqClient_connect,
    RabbitMQTasqClient_connect.
  destruct (cls c), (_is_connected c); simpl; try done;
    destruct (_gatherer c); simpl; try done; by apply drain_store.
Qed.

Lemma disconnect_store D c :
  store_ok D (_results c) (futures c) →
  store_ok D (_results (disconnect c)) (futures (disconnect c)).
Proof.
  intros H. unfold disconnect, BaseTasqClient_disconnect,
    RedisTasqClient_disconnect, RabbitMQTasqClient_disconnect.
  by destruct (cls c), (_is_connected c).
Qed.

(** What an iteration that receives a result does to the map and to the
    store: nothing, or one call of [set_result] on the future under the
    name of the result. *)
Lemma gather_results_store strict r c :
  _results (gather_results strict (Got (Some r)) c) = _results c ∧
  (futures (gather_results strict (Got (Some r)) c) = futures c ∨
   ∃ i f f', _results c !! name r = Some i ∧ futures c !! i = Some f ∧
             set_result_calls f' = S (set_result_calls f) ∧
             futures (gather_results strict (Got (Some r)) c)
               = <[i := f']> (futures c)).
Proof.
  unfold gather_results, ZMQTasqClient_gather_results,
    RedisTasqClient_gather_results, RabbitMQTasqClient_gather_results.
  assert (∀ c0, _results c0 = _results c → futures c0 = futures c →
    _results (gather_rest strict (Some r) c0) = _results c ∧
    (futures (gather_rest strict (Some r) c0) = futures c ∨
     ∃ i f f', _results c !! name r = Some i ∧ futures c !! i = Some f ∧
               set_result_calls f' = S (set_result_calls f) ∧
               futures (gather_rest strict (Some r) c0) = <[i := f']> (futures c)))
    as Hrest.
  { intros c0 Hr Hf. unfold gather_rest, complete. fields. rewrite Hr, Hf.
    destruct (_results c !! name r) as [i|] eqn:Hi; simpl; [|by auto].
    destruct (futures c !! i) as [f|] eqn:Hfi; simpl.
    - destruct (set_result strict f r) as [o f'] eqn:Hset.
      assert (set_result_calls f' = S (set_result_calls f)) as Hcalls.
      { unfold set_result in Hset.
        destruct (done f && strict); by simplify_eq. }
      destruct o; simpl; (split; [done|]); right; by exists i, f, f'.
    - rewrite !list_insert_ge by (by apply lookup_ge_None).
      destruct (set_result strict TasqFuture_init r) as [[| |] f']; simpl;
        by auto. }
  destruct (cls c), (_gatherer c); simpl; try (by auto); by apply Hrest.
Qed.

Lemma gather_results_none_store strict c :
  _results (gather_results strict (Got None) c) = _results c ∧
  futures (gather_results strict (Got None) c) = futures c.
Proof.
  unfold gather_results, ZMQTasqClient_gather_results,
    RedisTasqClient_gather_results, RabbitMQTasqClient_gather_results.
  by destruct (cls c), (_gatherer c).
Qed.

Lemma run_ops_snoc strict ops o c :
  run_ops strict (ops ++ [o]) c = op_step strict (run_ops strict ops c) o.
Proof. unfold run_ops. by rewrite foldl_app. Qed.

Lemma gathered_names_snoc ops o :
  gathered_names (ops ++ [o]) = gathered_names ops ++ gathered_names [o].
Proof. unfold gathered_names. by rewrite omap_app. Qed.

Lemma run_ops_store strict k ops :
  NoDup (gathered_names ops) → no_recv_error ops →
  store_ok (gathered_names ops)
    (_results (run_ops strict ops (Client_init k)))
    (futures (run_ops strict ops (Client_init k))).
Proof.
  induction ops as [|o ops IH] using rev_ind; intros Hnd Herr.
  - unfold store_ok; simpl.
    split_and!; intros *; rewrite ?lookup_empty, ?lookup_nil; done.
  - rewrite run_ops_snoc, gathered_names_snoc.
    rewrite gathered_names_snoc in Hnd.
    destruct (proj1 (Forall_app _ _ _) Herr) as [Herr' Ho'].
    pose proof (proj1 (Forall_singleton _ _) Ho') as Ho.
    apply NoDup_app in Hnd as (Hnd & Hdisj & _).
    specialize (IH Hnd Herr').
    destruct o as [| |f a kw|[[r|]|]]; simpl.
    + rewrite (right_id_L [] (++)). by apply connect_store.
    + rewrite (right_id_L [] (++)). by apply disconnect_store.
    + rewrite (right_id_L [] (++)). by apply schedule_store.
    + destruct (gather_results_store strict r (run_ops strict ops (Client_init k)))
        as [-> [-> | (i & f & f' & Hi & Hf & Hcalls & ->)]].
      * by apply store_ok_weaken.
      * eapply store_ok_set; try done.
        intros Hin. apply (Hdisj _ Hin). by apply list_elem_of_singleton.
    + rewrite (right_id_L [] (++)).
      by destruct (gather_results_none_store strict
                     (run_ops strict ops (Client_init k))) as [-> ->].
    + done.
Qed.


(** X24: in a run of a client (calls of [connect], [disconnect],
    [schedule] and iterations of its gathering loop, in any order) in which
    no receive raises and no two results received bear the same name, no
    future has [set_result] called on it more than once; different keys of
    the results map hold different futures, and every future that the map
    holds exists. *)
Theorem futures_completed_at_most_once (strict : bool) (k : ClientClass)
    (ops : list Op) :
  NoDup (gathered_names ops) → no_recv_error ops →
  (∀ i f, futures (run_ops strict ops (Client_init k)) !! i = Some f →
          (set_result_calls f ≤ 1)%nat) ∧
  (∀ k1 k2 i, _results (run_ops strict ops (Client_init k)) !! k1 = Some i →
              _results (run_ops strict ops (Client_init k)) !! k2 = Some i →
              k1 = k2) ∧
  (∀ k1 i, _results (run_ops strict ops (Client_init k)) !! k1 = Some i →
           is_Some (futures (run_ops strict ops (Client_init k)) !! i)).
Proof.
  intros Hnd Herr.
  destruct (run_ops_store strict k ops Hnd Herr) as (Hinj & Halloc & Honce & _).
  split_and!; try done.
  intros k1 i Hi. apply lookup_lt_is_Some. by eapply Halloc.
Qed.

Lemma futures_completed_at_most_once_witness :
  NoDup (gathered_names one_result) ∧ no_recv_error one_result ∧
  futures (run_ops true one_result (Client_init ZMQTasqClient)) !! 0
    = Some (mkFuture (Some (result_of (VStr "a") 1)) 1) ∧
  (set_result_calls (mkFuture (Some (result_of (VStr "a") 1)) 1) ≤ 1)%nat.
Proof.
  assert (NoDup (gathered_names one_result)) as Hnd.
  { apply NoDup_singleton. }
  assert (no_recv_error one_result) as Herr.
  { repeat constructor; discriminate. }
  split_and!; [exact Hnd | exact Herr | reflexivity |].
  apply (proj1 (futures_completed_at_most_once true ZMQTasqClient one_result
                  Hnd Herr) 0).
  reflexivity.
Defined.

(** *** [map] *)

(** [idx] stays 0: only the first client of the pool is ever used. *)
Lemma map_loop_first_only f iterable c0 rest :
  ∃ c0', (map_loop f iterable 0 (c0 :: rest)).2 = c0' :: rest.
Proof.
  revert c0. induction iterable as [|[a kw] iterable IH]; intros c0; simpl.
  - by eexists.
  - case_decide; simpl.
    + destruct (if negb (_is_connected c0) then connect c0 else (Returns (), c0))
        as [[?|?|] c1]; simpl; by eauto.
    + destruct (if negb (_is_connected c0) then connect c0 else (Returns (), c0))
        as [[?|?|] c1]; simpl; by eauto.
Qed.

(** C1 fails on the code: with two clients and three pairs, the three jobs
    are scheduled on the first client, and the second client is neither
    connected nor given a job. *)
Theorem map_uses_first_client_only :
  (map two_endpoints "f" three_pairs).1 = Returns tt ∧
  (λ c, job_id <$> sent c) <$> _clients (map two_endpoints "f" three_pairs).2
    = [[VStr "a"; VStr "b"; VStr "c"]; []] ∧
  _is_connected <$> _clients (map two_endpoints "f" three_pairs).2
    = [true; false].
Proof. by vm_compute. Qed.

(** *** What the gathering thread touches *)

Lemma gathering_only_refl c : gathering_only c c.
Proof. by unfold gathering_only. Qed.

Lemma gathering_only_trans c1 c2 c3 :
  gathering_only c1 c2 → gathering_only c2 c3 → gathering_only c1 c3.
Proof.
  intros (H1 & H2 & H3 & H4 & H5 & H6 & H7 & H8)
         (G1 & G2 & G3 & G4 & G5 & G6 & G7 & G8).
  unfold gathering_only. split_and!; try congruence.
  intros i Hi. rewrite G8, H8; [done | done |]. by rewrite H4.
Qed.

Lemma gather_rest_only strict jr c : gathering_only c (gather_rest strict jr c).
Proof.
  destruct jr as [r|]; [|apply gathering_only_refl].
  unfold gather_rest, complete. fields.
  destruct (_results c !! name r) as [i|] eqn:Hi; [|by unfold gathering_only].
  destruct (set_result strict (default TasqFuture_init (futures c !! i)) r)
    as [[| |] f'] eqn:Hset; unfold gathering_only; simpl;
    (split_and!; try done; [by rewrite length_insert|];
     intros j Hj; rewrite list_lookup_insert_ne; [done|];
     intros ->; by apply (Hj (name r))).
Qed.

Lemma gather_results_only strict ev c :
  gathering_only c (gather_results strict ev c).
Proof.
  unfold gather_results, ZMQTasqClient_gather_results,
    RedisTasqClient_gather_results, RabbitMQTasqClient_gather_results.
  destruct (cls c) eqn:Hk, (_gatherer c) as [|l|e], ev as [r|];
    try apply gathering_only_refl; try (by unfold gathering_only).
  - eapply gathering_only_trans; [|apply gather_rest_only].
    by unfold gathering_only.
  - destruct l as [r|]; [|by unfold gathering_only].
    eapply gathering_only_trans; [|apply gather_rest_only].
    by unfold gathering_only.
  - eapply gathering_only_trans; [|apply gather_rest_only].
    by unfold gathering_only.
  - eapply gathering_only_trans; [|apply gather_rest_only].
    by unfold gathering_only.
Qed.

Lemma gather_only strict evs : ∀ c, gathering_only c (gather strict evs c).
Proof.
  induction evs as [|ev evs IH]; intros c; [apply gathering_only_refl|].
  simpl. eapply gathering_only_trans; [apply gather_results_only | apply IH].
Qed.

(** X4: whatever the gathering loop of a client receives, errors included,
    it sends no job and calls neither [connect] nor [disconnect] nor [close]
    on the connection (receiving is all that it does there), it leaves the
    connection flag, the pending queue and the results map as they are, and
    it creates no future. *)
Theorem gathering_changes_futures_only (strict : bool) (evs : list Recv)
    (c : Client) :
  _client (gather strict evs c) = _client c ∧
  _is_connected (gather strict evs c) = _is_connected c ∧
  _pending (gather strict evs c) = _pending c ∧
  _results (gather strict evs c) = _results c ∧
  length (futures (gather strict evs c)) = length (futures c).
Proof.
  destruct (gather_only strict evs c) as (_ & H2 & H3 & H4 & H5 & _ & H7 & _).
  by split_and!.
Qed.

(** X5: when two jobs are scheduled on a connected client under the same
    name, the results map holds the future of the second under that name,
    and the future returned for the first is never completed, whatever the
    gathering loop receives afterwards. *)
Theorem replaced_future_never_completed (strict : bool) (c : Client)
    (f1 f2 : Func) (a1 a2 : list Value) (kw1 kw2 : gmap string Value)
    (evs : list Recv) :
  _is_connected c = true → results_allocated c →
  kw1 !! "name" = kw2 !! "name" →
  (schedule c f1 a1 kw1).1 = Some (length (futures c)) ∧
  (schedule (schedule c f1 a1 kw1).2 f2 a2 kw2).1 = Some (S (length (futures c))) ∧
  _results (schedule (schedule c f1 a1 kw1).2 f2 a2 kw2).2
      !! default (VStr "") (kw1 !! "name") = Some (S (length (futures c))) ∧
  futures (gather strict evs (schedule (schedule c f1 a1 kw1).2 f2 a2 kw2).2)
      !! length (futures c) = Some TasqFuture_init.
Proof.
  intros Hc Halloc Hname.
  pose proof (schedule_connected c f1 a1 kw1 Hc) as Hs1.
  destruct (Job_init (uuid4 c) _ f1 a1 _) as [job1 u1]. rewrite Hs1. simpl.
  match goal with |- context [schedule ?c1 f2 a2 kw2] =>
    pose proof (schedule_connected c1 f2 a2 kw2 eq_refl) as Hs2 end.
  simpl in Hs2. destruct (Job_init u1 _ f2 a2 _) as [job2 u2]. rewrite Hs2.
  simpl. rewrite length_app. simpl. rewrite Nat.add_1_r.
  split_and!; [done | done | by rewrite Hname, lookup_insert_eq |].
  match goal with |- futures (gather _ _ ?c2) !! _ = _ =>
    destruct (gather_only strict evs c2) as (_ & _ & _ & _ & _ & _ & _ & Hkeep) end.
  rewrite Hkeep; simpl.
  - rewrite lookup_app_l by (rewrite length_app; simpl; lia).
    by rewrite lookup_app_r, Nat.sub_diag by lia.
  - intros k. rewrite Hname, !lookup_insert.
    repeat case_decide; try (intros ?; simplify_eq; lia).
    intros Hk. apply Halloc in Hk. lia.
Qed.

Lemma replaced_future_never_completed_witness :
  futures (gather true [Got (Some (result_of (VStr "a") 1));
                        Got (Some (result_of (VStr "a") 2))]
             (schedule (schedule (connected ZMQTasqClient) "f" [] {["name" := VStr "a"]}).2
                       "g" [] {["name" := VStr "a"]}).2) !! 0
    = Some TasqFuture_init.
Proof.
  refine (proj2 (proj2 (proj2
    (replaced_future_never_completed true (connected ZMQTasqClient) "f" "g" [] []
       {["name" := VStr "a"]} {["name" := VStr "a"]}
       [Got (Some (result_of (VStr "a") 1)); Got (Some (result_of (VStr "a") 2))]
       eq_refl _ eq_refl)))).
  intros k i Hk. vm_compute in Hk. discriminate Hk.
Defined.

(** *** How often a future is completed *)












(** A result gathered, handled once more at a receive error, and a second
    job under the same name: where [set_result] overwrites, the first future
    is completed twice and the second once; where it raises, the second call
    ends the thread and the second future stays pending. *)
Example handled_again_counts :
  completions false 0 handled_again (Client_init ZMQTasqClient) = 2 ∧
  completions false 1 handled_again (Client_init ZMQTasqClient) = 1 ∧
  set_result_calls <$>
    futures (run_ops false handled_again (Client_init ZMQTasqClient)) = [2; 1] ∧
  completions true 0 handled_again (Client_init ZMQTasqClient) = 2 ∧
  completions true 1 handled_again (Client_init ZMQTasqClient) = 0 ∧
  set_result_calls <$>
    futures (run_ops true handled_again (Client_init ZMQTasqClient)) = [2; 0] ∧
  completions true 0 handled_again (Client_init RedisTasqClient) = 1.
Proof. by vm_compute. Qed.

(** *** [pending_results], [__exit__] and [close] *)

Lemma set_result_done strict f r : done (set_result strict f r).2 = true.
Proof.
  unfold set_result. destruct (done f) eqn:Hd, strict; simpl; try done;
    unfold done; simpl; by apply bool_decide_eq_true_2.
Qed.

Lemma gather_results_alive strict c l r :
  _gatherer c = Alive l →
  _results (gather_results strict (Got (Some r)) c) = _results c ∧
  futures (gather_results strict (Got (Some r)) c) =
    match _results c !! name r with
    | None => futures c
    | Some i =>
        <[i := (set_result strict (default TasqFuture_init (futures c !! i)) r).2]>
          (futures c)
    end.
Proof.
  intros Hg.
  unfold gather_results, ZMQTasqClient_gather_results,
    RedisTasqClient_gather_results, RabbitMQTasqClient_gather_results.
  rewrite Hg. destruct (cls c); unfold gather_rest, complete; fields;
    destruct (_results c !! name r) as [i|]; simpl; try done;
    destruct (set_result strict (default TasqFuture_init (futures c !! i)) r)
      as [[| |] f']; by simpl.
Qed.

(** X6: scheduling a job on a connected client puts the value of its
    [name] keyword among the pending results, with the new future, and
    leaves the other entries as they are.  Without the keyword that key is
    the empty string, and not the identifier generated for the job. *)
Theorem pending_results_schedule (c : Client) (f : Func) (a : list Value)
    (kw : gmap string Value) :
  _is_connected c = true → results_allocated c →
  pending_results (schedule c f a kw).2
    = <[default (VStr "") (kw !! "name") := length (futures c)]> (pending_results c).
Proof.
  intros Hc Halloc.
  pose proof (schedule_connected c f a kw Hc) as Hs.
  destruct (Job_init _ _ _ _ _) as [job u]. rewrite Hs.
  unfold pending_results. simpl.
  rewrite map_filter_insert_True.
  - f_equal. apply map_filter_ext. intros k i Hk. simpl.
    by rewrite lookup_app_l by (by eapply Halloc).
  - simpl. by rewrite lookup_app_r, Nat.sub_diag by lia.
Qed.

Lemma pending_results_schedule_witness :
  pending_results (schedule (connected ZMQTasqClient) "f" [] ∅).2
  = {[VStr "" := 0]}.
Proof.
  rewrite (pending_results_schedule (connected ZMQTasqClient) "f" [] ∅ eq_refl).
  - reflexivity.
  - intros k i Hk. vm_compute in Hk. discriminate Hk.
Defined.

(** X7: when a live gathering loop receives a result, the name of the result
    leaves the pending results and no other entry does. *)
Theorem pending_results_gather (strict : bool) (c : Client)
    (l : option (option JobResult)) (r : JobResult) :
  _gatherer c = Alive l → results_allocated c → results_injective c →
  pending_results (gather_results strict (Got (Some r)) c)
    = delete (name r) (pending_results c).
Proof.
  intros Hg Halloc Hinj.
  destruct (gather_results_alive strict c l r Hg) as [Hrs Hfs].
  unfold pending_results. rewrite Hrs, Hfs.
  apply map_eq. intros k. apply option_eq. intros j.
  rewrite map_lookup_filter_Some, lookup_delete_Some, map_lookup_filter_Some.
  simpl. destruct (_results c !! name r) as [i|] eqn:Hi.
  - split.
    + intros [Hk Hd]. destruct (decide (j = i)) as [->|Hne].
      * rewrite list_lookup_insert_eq in Hd by (by eapply Halloc).
        simpl in Hd. by rewrite set_result_done in Hd.
      * rewrite list_lookup_insert_ne in Hd by done.
        split_and!; try done. intros <-. congruence.
    + intros (Hne & Hk & Hd). split; [done|].
      rewrite list_lookup_insert_ne; [done|].
      intros <-. apply Hne. by eapply Hinj.
  - split.
    + intros [Hk Hd]. split_and!; try done. intros <-. congruence.
    + by intros (_ & Hk & Hd).
Qed.

Lemma pending_results_gather_witness :
  pending_results
    (gather_results true (Got (Some (result_of (VStr "a") 3)))
       (schedule (connected RedisTasqClient) "f" [] {["name" := VStr "a"]}).2)
    !! VStr "a" = None.
Proof.
  rewrite (pending_results_gather true
             (schedule (connected RedisTasqClient) "f" [] {["name" := VStr "a"]}).2
             None (result_of (VStr "a") 3)).
  - apply lookup_delete_eq.
  - reflexivity.
  - intros k i Hk.
    change (<[VStr "a" := 0]> (∅ : gmap Value nat) !! k = Some i) in Hk.
    apply lookup_insert_Some in Hk as [[_ <-]|[_ Hk]]; [vm_compute; lia|].
    by rewrite lookup_empty in Hk.
  - intros k1 k2 i Hk1 Hk2.
    change (<[VStr "a" := 0]> (∅ : gmap Value nat) !! k1 = Some i) in Hk1.
    change (<[VStr "a" := 0]> (∅ : gmap Value nat) !! k2 = Some i) in Hk2.
    apply lookup_insert_Some in Hk1 as [[<- _]|[_ Hk1]];
      [|by rewrite lookup_empty in Hk1].
    apply lookup_insert_Some in Hk2 as [[<- _]|[_ Hk2]];
      [done | by rewrite lookup_empty in Hk2].
Defined.

Lemma gather_results_not_alive strict ev c :
  is_alive (_gatherer c) = false → gather_results strict ev c = c.
Proof.
  unfold gather_results, ZMQTasqClient_gather_results,
    RedisTasqClient_gather_results, RabbitMQTasqClient_gather_results.
  by destruct (cls c), (_gatherer c).
Qed.

Lemma gather_not_alive strict evs c :
  is_alive (_gatherer c) = false → gather strict evs c = c.
Proof.
  intros H. induction evs as [|ev evs IH]; [done|].
  simpl. by rewrite gather_results_not_alive.
Qed.

(** X8: [__exit__] spins while a future of the results map is pending:
    once the gathering thread is not alive, a client with a pending result
    never leaves [__exit__], whatever arrives. *)
Theorem exit_waits_for_pending_results (strict : bool) (c : Client)
    (evs : list Recv) :
  pending_results c ≠ ∅ → is_alive (_gatherer c) = false →
  __exit__ (gather strict evs c) = (Blocks, c).
Proof.
  intros H Hg. rewrite gather_not_alive by done.
  unfold __exit__. by rewrite decide_False.
Qed.

Lemma exit_waits_for_pending_results_witness :
  __exit__ (gather true [Got (Some (result_of (VStr "a") 1))] waiting_client)
    = (Blocks, waiting_client).
Proof.
  apply (exit_waits_for_pending_results true waiting_client).
  - intros H. apply (f_equal (λ m, m !! VStr "a")) in H.
    vm_compute in H. discriminate H.
  - reflexivity.
Defined.

(** X9: [close] leaves the client disconnected whatever its state; on the
    connection it calls [disconnect] first only when a ZMQ client is
    connected, and [close] last in every case; it does not stop the
    gathering thread and drops neither a buffered job nor a future. *)
Theorem close_calls (c : Client) :
  _is_connected (close c) = false ∧
  _client (close c) =
    _client c ++
    (if _is_connected c
     then match cls c with ZMQTasqClient => [CDisconnect] | _ => [] end
     else []) ++ [CClose] ∧
  connection_open (_client (close c)) = false ∧
  _gatherer (close c) = _gatherer c ∧ _pending (close c) = _pending c ∧
  _results (close c) = _results c ∧ futures (close c) = futures c.
Proof.
  unfold close, disconnect, BaseTasqClient_disconnect,
    RedisTasqClient_disconnect, RabbitMQTasqClient_disconnect.
  assert (∀ l, connection_open (l ++ [CClose]) = false) as Hclose.
  { intros l. unfold connection_open. by rewrite foldl_app. }
  destruct (_is_connected c) eqn:Hc, (cls c) eqn:Hk; fields;
    rewrite ?Hc; simpl; rewrite ?Hc; split_and!; try done;
    try (by rewrite <-(assoc_L (++))); by rewrite ?(assoc_L (++)), Hclose.
Qed.

(** X10: after [shutdown] every client of the pool is disconnected and its
    connection closed, and no client has lost a buffered job. *)
Theorem shutdown_closes_all (p : TasqClientPool) :
  Forall (λ c, _is_connected c = false ∧ connection_open (_client c) = false)
         (_clients (shutdown p)) ∧
  _pending <$> _clients (shutdown p) = _pending <$> _clients p.
Proof.
  unfold shutdown. simpl. split.
  - apply Forall_fmap, Forall_true. intros c. simpl.
    by destruct (close_calls c) as (? & _ & ? & _).
  - rewrite <-list_fmap_compose. apply list_fmap_ext. intros i c _. simpl.
    by destruct (close_calls c) as (_ & _ & _ & _ & ? & _).
Qed.

(** *** Runs of a client *)

Lemma jobs_of_app calls1 calls2 :
  ∀ u, jobs_of u (calls1 ++ calls2)
       = jobs_of u calls1 ++ jobs_of (uuid_of u calls1) calls2.
Proof.
  induction calls1 as [|[[f a] kw] calls1 IH]; intros u; simpl; [done|].
  destruct (Job_init _ _ _ _ _) as [job u']. simpl. by rewrite IH.
Qed.

Lemma uuid_of_app calls1 calls2 :
  ∀ u, uuid_of u (calls1 ++ calls2) = uuid_of (uuid_of u calls1) calls2.
Proof.
  induction calls1 as [|[[f a] kw] calls1 IH]; intros u; simpl; [done|].
  by rewrite IH.
Qed.

Lemma scheduled_snoc ops o : scheduled (ops ++ [o]) = scheduled ops ++ scheduled [o].
Proof. unfold scheduled. by rewrite omap_app. Qed.

Lemma connection_open_sends l js :
  connection_open (l ++ (CSend <$> js)) = connection_open l.
Proof.
  unfold connection_open. rewrite foldl_app.
  generalize (foldl (λ b x, match x with
                            | CConnect => true
                            | CDisconnect | CClose => false
                            | CSend _ => b
                            end) false l).
  induction js as [|j js IH]; intros b; [done|]. simpl. apply IH.
Qed.

Lemma sent_app l1 l2 :
  omap (λ x, match x with CSend j => Some j | _ => None end) (l1 ++ l2)
  = omap (λ x, match x with CSend j => Some j | _ => None end) l1 ++
    omap (λ x, match x with CSend j => Some j | _ => None end) l2.
Proof. apply omap_app. Qed.

Lemma drain_sends_only n :
  ∀ c, ∃ js, _client (drain n c).2 = _client c ++ (CSend <$> js).
Proof.
  induction n as [|n IH]; intros c; rewrite drain_unfold;
    destruct (deque_pop (_pending c)) as [[job q]|];
    try (exists []; simpl; by rewrite (right_id_L [] (++))).
  destruct (kwargs job !! "name");
    [exists []; simpl; by rewrite (right_id_L [] (++))|].
  destruct (IH (schedule (with_pending q c) (func job) (args job)
                  (<["name" := job_id job]> (kwargs job))).2) as [js ->].
  destruct (_is_connected c) eqn:Hc.
  - pose proof (schedule_connected (with_pending q c) (func job) (args job)
                  (<["name" := job_id job]> (kwargs job)) Hc) as Hs.
    destruct (Job_init _ _ _ _ _) as [job' u]. rewrite Hs. simpl.
    exists (job' :: js). by rewrite <-(assoc_L (++)).
  - pose proof (schedule_disconnected (with_pending q c) (func job) (args job)
                  (<["name" := job_id job]> (kwargs job)) Hc) as Hs.
    destruct (Job_init _ _ _ _ _) as [job' u]. rewrite Hs. simpl.
    by exists js.
Qed.

Lemma drain_effect c :
  _is_connected c = true → Forall job_wf (_pending c) →
  cls (drain (length (_pending c)) c).2 = cls c ∧
  uuid4 (drain (length (_pending c)) c).2 = uuid4 c ∧
  _is_connected (drain (length (_pending c)) c).2 = true ∧
  _gatherer (drain (length (_pending c)) c).2 = _gatherer c ∧
  sent (drain (length (_pending c)) c).2 = sent c ++ reverse (_pending c) ∧
  _pending (drain (length (_pending c)) c).2 = [] ∧
  ∃ js, _client (drain (length (_pending c)) c).2 = _client c ++ (CSend <$> js).
Proof.
  intros Hc Hwf.
  destruct (drain_connected (_pending c) (length (_pending c)) c Hc eq_refl Hwf)
    as (c' & Hd & Hs & Hp & Hi & Hk & Hg & Hu); [done|].
  destruct (drain_sends_only (length (_pending c)) c) as [js Hjs].
  rewrite Hd in *. simpl in *. split_and!; try done. by exists js.
Qed.

Lemma connect_effect c :
  Forall job_wf (_pending c) → _is_connected c = false →
  cls (connect c).2 = cls c ∧ uuid4 (connect c).2 = uuid4 c ∧
  _is_connected (connect c).2 = true ∧
  (∃ js, _client (connect c).2 =
         (_client c ++ match cls c with ZMQTasqClient => [CConnect] | _ => [] end)
         ++ (CSend <$> js)) ∧
  ((sent (connect c).2 = sent c ++ reverse (_pending c) ∧
    _pending (connect c).2 = []) ∨
   (sent (connect c).2 = sent c ∧ _pending (connect c).2 = _pending c ∧
    (cls c = ZMQTasqClient → is_alive (_gatherer (connect c).2) = false))).
Proof.
  intros Hwf Hc.
  unfold connect, BaseTasqClient_connect, RedisTasqClient_connect,
    RabbitMQTasqClient_connect. rewrite Hc. simpl.
  destruct (cls c) eqn:Hk, (_gatherer c) eqn:Hg; simpl;
    try (fields; rewrite ?Hk, ?Hg; split_and!; try done;
         [ exists []; simpl; by rewrite ?(right_id_L [] (++))
         | right; unfold sent; simpl; rewrite ?sent_app; simpl;
           by rewrite ?(right_id_L [] (++)) ]);
    match goal with |- context [drain _ ?c1] =>
      destruct (drain_effect c1) as (H1 & H2 & H3 & H4 & H5 & H6 & js & H7);
        [done | done |] end;
    fields; rewrite H1, H2, H3, H5, H6, H7; rewrite ?Hk;
    split_and!; try done;
    try (exists js; by rewrite ?(right_id_L [] (++)));
    left; split; try done; unfold sent; simpl; rewrite ?sent_app; simpl;
    by rewrite ?(right_id_L [] (++)).
Qed.

Lemma connection_open_snoc l x :
  connection_open (l ++ [x]) =
    match x with
    | CConnect => true
    | CDisconnect | CClose => false
    | CSend _ => connection_open l
    end.
Proof. unfold connection_open. rewrite foldl_app. by destruct x. Qed.

Lemma gather_results_alive_before strict ev c :
  is_alive (_gatherer (gather_results strict ev c)) = true →
  is_alive (_gatherer c) = true.
Proof.
  destruct (is_alive (_gatherer c)) eqn:Ha; [done|].
  by rewrite gather_results_not_alive, Ha.
Qed.

Lemma run_ops_invariant strict k ops :
  run_invariant k ops (run_ops strict ops (Client_init k)).
Proof.
  induction ops as [|o ops IH] using rev_ind.
  - unfold run_invariant. simpl. split_and!; try done.
  - rewrite run_ops_snoc.
    destruct IH as (Hk & Hwf & Hperm & Hu & Hopen & Hidle & Hsends).
    set (c := run_ops strict ops (Client_init k)) in *.
    unfold run_invariant. rewrite scheduled_snoc, jobs_of_app, uuid_of_app.
    destruct o as [| |f a kw|ev]; simpl.
    + (* connect *)
      rewrite !(right_id_L [] (++)).
      destruct (_is_connected c) eqn:Hc.
      { rewrite connect_connected by done. simpl. rewrite Hc. by split_and!. }
      destruct (connect_effect c Hwf Hc)
        as (H1 & H2 & H3 & [js Hjs] & Hcase).
      split_and!.
      * congruence.
      * destruct Hcase as [[_ ->] | (_ & -> & _)]; [constructor | done].
      * destruct Hcase as [[-> ->] | (-> & -> & _)]; [|done].
        by rewrite (right_id_L [] (++)), reverse_Permutation.
      * congruence.
      * intros ->. rewrite Hjs, Hk, connection_open_sends, connection_open_snoc.
        by rewrite H3.
      * intros -> _ Ha.
        destruct Hcase as [[_ ->] | (_ & _ & Hdead)]; [done|].
        rewrite Hdead in Ha; done.
      * intros Hne. rewrite Hjs. apply Forall_app. split.
        -- destruct (cls c) eqn:Hk'; [congruence | |];
             rewrite (right_id_L [] (++)); by apply Hsends.
        -- apply Forall_fmap, Forall_true. intros j. by eexists.
    + (* disconnect *)
      rewrite !(right_id_L [] (++)).
      unfold disconnect, BaseTasqClient_disconnect,
        RedisTasqClient_disconnect, RabbitMQTasqClient_disconnect.
      destruct (cls c) eqn:Hk', (_is_connected c) eqn:Hc; fields;
        rewrite ?Hk', ?Hc; split_and!; try done;
        try (intros _; by rewrite connection_open_snoc);
        try (unfold sent in *; simpl; rewrite sent_app; simpl;
             by rewrite (right_id_L [] (++)));
        try (intros <-; rewrite <-Hc; by apply Hopen);
        try congruence.
    + (* schedule *)
      destruct (_is_connected c) eqn:Hc.
      * pose proof (schedule_connected c f a kw Hc) as Hs. rewrite <-Hu.
        pose proof (Job_init_wf (uuid4 c) (default (VStr "") (kw !! "name")) f a kw)
          as Hjob.
        destruct (Job_init _ _ _ _ _) as [job u]. rewrite Hs. simpl.
        split_and!; try done.
        -- unfold sent in *. simpl. rewrite sent_snoc, <-Hperm.
           rewrite <-!(assoc_L (++)). apply Permutation_app_head, Permutation_app_comm.
        -- intros Hz. rewrite connection_open_snoc. by apply Hopen.
        -- intros Hne. apply Forall_app. split; [by apply Hsends|].
           apply Forall_singleton. by eexists.
      * pose proof (schedule_disconnected c f a kw Hc) as Hs. rewrite <-Hu.
        pose proof (Job_init_wf (uuid4 c) (default (VStr "") (kw !! "name")) f a kw)
          as Hjob.
        destruct (Job_init _ _ _ _ _) as [job u]. rewrite Hs. simpl.
        split_and!; try done.
        -- by constructor.
        -- unfold sent in *. simpl. rewrite <-Hperm.
           rewrite <-(assoc_L (++)). apply Permutation_app_head.
           by rewrite Permutation_cons_append.
    + (* an iteration of the gathering loop *)
      rewrite !(right_id_L [] (++)).
      destruct (gather_results_only strict ev c)
        as (G1 & G2 & G3 & G4 & G5 & G6 & _).
      unfold sent. rewrite G1, G2, G3, G5, G6. split_and!; try done.
      intros Hz Hc Ha. apply Hidle; try done.
      by eapply gather_results_alive_before.
Qed.

(** X11: through every run of a ZMQ client, calls of [connect],
    [disconnect] and [schedule] and iterations of its gathering loop in
    any order and whether or not a call raises, the connection is connected
    exactly when the client says that it is. *)
Theorem zmq_flag_follows_connection (strict : bool) (ops : list Op) :
  connection_open (_client (run_ops strict ops (Client_init ZMQTasqClient)))
  = _is_connected (run_ops strict ops (Client_init ZMQTasqClient)).
Proof.
  destruct (run_ops_invariant strict ZMQTasqClient ops)
    as (_ & _ & _ & _ & H & _). by apply H.
Qed.

(** X12: in such a run a Redis or a RabbitMQ client never calls [connect],
    [disconnect] or [close] on its connection: besides what its gathering
    loop receives, it uses the connection for the jobs that it sends and
    for nothing else. *)
Theorem other_clients_only_send (strict : bool) (ops : list Op) :
  _client (run_ops strict ops (Client_init RedisTasqClient))
    = CSend <$> sent (run_ops strict ops (Client_init RedisTasqClient)) ∧
  _client (run_ops strict ops (Client_init RabbitMQTasqClient))
    = CSend <$> sent (run_ops strict ops (Client_init RabbitMQTasqClient)).
Proof.
  assert (∀ l : list Call, Forall (λ x, ∃ j, x = CSend j) l →
            l = CSend <$> omap (λ x, match x with CSend j => Some j | _ => None end) l)
    as Hall.
  { induction 1 as [|x l [j ->] _ IH]; [done|]. csimpl. by f_equal. }
  split.
  - destruct (run_ops_invariant strict RedisTasqClient ops)
      as (_ & _ & _ & _ & _ & _ & H). by apply Hall, H.
  - destruct (run_ops_invariant strict RabbitMQTasqClient ops)
      as (_ & _ & _ & _ & _ & _ & H). by apply Hall, H.
Qed.

(** X13: in every run of a client of any class in which the calls on the
    connection itself return ([connect] and [send] do not fail), the jobs
    that have been sent together with the jobs in the pending queue are the
    jobs built by the [schedule] calls of the run, each of them once: no job
    is lost and none is sent twice, also when a [connect] raises
    [RuntimeError] because the gathering thread cannot be started. *)
Theorem no_job_lost_or_repeated (strict : bool) (k : ClientClass)
    (ops : list Op) :
  sent (run_ops strict ops (Client_init k)) ++
    _pending (run_ops strict ops (Client_init k))
  ≡ₚ jobs_of 0 (scheduled ops).
Proof. by destruct (run_ops_invariant strict k ops) as (_ & _ & H & _). Qed.

(** X14: in every run of a ZMQ client, when the client is connected and its
    gathering thread is alive, the pending queue is empty. *)
Theorem zmq_connected_nothing_pending (strict : bool) (ops : list Op) :
  _is_connected (run_ops strict ops (Client_init ZMQTasqClient)) = true →
  is_alive (_gatherer (run_ops strict ops (Client_init ZMQTasqClient))) = true →
  _pending (run_ops strict ops (Client_init ZMQTasqClient)) = [].
Proof.
  destruct (run_ops_invariant strict ZMQTasqClient ops)
    as (_ & _ & _ & _ & _ & H & _). by apply H.
Qed.

Lemma zmq_connected_nothing_pending_witness :
  _pending (run_ops true buffered_then_connected (Client_init ZMQTasqClient)) = [].
Proof.
  apply (zmq_connected_nothing_pending true buffered_then_connected);
    reflexivity.
Defined.

(** *** [map] over any pool *)

Lemma schedule_all_connected calls :
  ∀ c, _is_connected c = true →
       _is_connected (schedule_all calls c) = true ∧
       sent (schedule_all calls c) = sent c ++ jobs_of (uuid4 c) calls ∧
       _pending (schedule_all calls c) = _pending c.
Proof.
  induction calls as [|[[f a] kw] calls IH]; intros c Hc.
  - simpl. by rewrite (right_id_L [] (++)).
  - simpl. pose proof (schedule_connected c f a kw Hc) as Hs.
    destruct (Job_init _ _ _ _ _) as [job u]. rewrite Hs. simpl.
    edestruct (IH (mkClient (cls c) (_client c ++ [CSend job]) true
                     (<[default (VStr "") (kw !! "name") := length (futures c)]>
                        (_results c))
                     (_pending c) (_gatherer c) (_log c)
                     (futures c ++ [TasqFuture_init]) u)) as (H1 & H2 & H3);
      [done|].
    split_and!; [done | | done].
    rewrite H2. unfold sent. simpl. rewrite sent_snoc.
    by rewrite <-(assoc_L (++)).
Qed.

Lemma map_loop_connected f iterable :
  ∀ c0 rest, _is_connected c0 = true →
    map_loop f iterable 0 (c0 :: rest)
    = (Returns tt, schedule_all (map_calls f iterable) c0 :: rest).
Proof.
  induction iterable as [|[a kw] iterable IH]; intros c0 rest Hc; [done|].
  simpl. assert (_is_connected (schedule c0 f a kw).2 = true) as Hc'.
  { pose proof (schedule_connected c0 f a kw Hc) as Hs.
    destruct (Job_init _ _ _ _ _) as [job u]. by rewrite Hs. }
  case_decide; simpl; rewrite Hc; simpl; by rewrite IH.
Qed.

(** X15: whatever the size of the pool, when its first client is or gets
    connected, [map] makes all its [schedule] calls on that client, in the
    order of the iterable, and leaves the other clients as they are: the
    jobs of all the pairs are sent over the first connection. *)
Theorem map_all_on_first_client (f : Func)
    (iterable : list (list Value * gmap string Value))
    (c0 : Client) (rest : list Client) :
  iterable ≠ [] →
  (__enter__ c0).1 = Returns tt → _is_connected (__enter__ c0).2 = true →
  map (mkPool (c0 :: rest)) f iterable
    = (Returns tt,
       mkPool (schedule_all (map_calls f iterable) (__enter__ c0).2 :: rest)) ∧
  sent (schedule_all (map_calls f iterable) (__enter__ c0).2)
    = sent (__enter__ c0).2
      ++ jobs_of (uuid4 (__enter__ c0).2) (map_calls f iterable).
Proof.
  intros Hne Hret Hc. split.
  - destruct iterable as [|[a kw] iterable]; [done|].
    assert (_is_connected (schedule (__enter__ c0).2 f a kw).2 = true) as Hc'.
    { pose proof (schedule_connected _ f a kw Hc) as Hs.
      destruct (Job_init _ _ _ _ _) as [job u]. by rewrite Hs. }
    assert (map_loop f ((a, kw) :: iterable) 0 (c0 :: rest)
            = match __enter__ c0 with
              | (Returns _, c) =>
                  map_loop f iterable 0 ((schedule c f a kw).2 :: rest)
              | (Raises e, c) => (Raises e, c :: rest)
              | (Blocks, c) => (Blocks, c :: rest)
              end) as Hloop.
    { unfold __enter__. simpl.
      case_decide; simpl; destruct (_is_connected c0); simpl; try done;
        by destruct (connect c0) as [[[]| |] ?]. }
    unfold map. cbn [_clients]. rewrite Hloop.
    destruct (__enter__ c0) as [[[]| |] c1]; simpl in *; try done.
    by rewrite map_loop_connected.
  - by destruct (schedule_all_connected (map_calls f iterable) _ Hc) as (_ & ? & _).
Qed.

Lemma map_all_on_first_client_witness :
  (λ c, job_id <$> sent c) <$>
    _clients (map (mkPool [Client_init ZMQTasqClient; Client_init ZMQTasqClient;
                           Client_init ZMQTasqClient]) "f" three_pairs).2
  = [[VStr "a"; VStr "b"; VStr "c"]; []; []].
Proof.
  destruct (map_all_on_first_client "f" three_pairs (Client_init ZMQTasqClient)
              [Client_init ZMQTasqClient; Client_init ZMQTasqClient])
    as [-> _]; [discriminate | reflexivity | reflexivity |].
  reflexivity.
Defined.

(** *** [schedule_blocking] on a connected client *)



(** *** Completing a future *)

(** X18: a [TasqFuture] that is pending blocks [unwrap]; once a result is
    set, [unwrap] returns its error when the outcome is [FAILED] and its
    value otherwise, and [exec_time] its execution time.  A second
    [set_result] raises where the library checks the state, and the first
    result stays; elsewhere the second result replaces the first. *)
Theorem unwrap_after_set_result (fut : TasqFuture) (r r' : JobResult) :
  _result fut = None →
  unwrap fut = Blocks ∧
  (∀ strict,
     unwrap (set_result strict fut r).2
       = Returns (match outcome r with FAILED => exc r | SUCCESS => value r end) ∧
     exec_time_of (set_result strict fut r).2 = Returns (exec_time r)) ∧
  set_result true (set_result true fut r).2 r'
    = (Raises InvalidStateError, mkFuture (Some r) (S (S (set_result_calls fut)))) ∧
  set_result false (set_result false fut r).2 r'
    = (Returns tt, mkFuture (Some r') (S (S (set_result_calls fut)))).
Proof.
  intros Hf.
  assert (done fut = false) as Hd.
  { unfold done. rewrite Hf. by apply bool_decide_eq_false_2; intros [? ?]. }
  split_and!.
  - unfold unwrap, result. by rewrite Hf.
  - intros strict. unfold unwrap, exec_time_of, result, set_result.
    rewrite Hd. simpl. by destruct (outcome r).
  - unfold set_result at 2. rewrite Hd. simpl. by unfold set_result.
  - unfold set_result at 2. rewrite Hd. simpl. unfold set_result.
    by rewrite andb_false_r.
Qed.

Lemma unwrap_after_set_result_witness :
  unwrap (set_result true TasqFuture_init (result_of (VStr "a") 3)).2
    = Returns (VInt 3).
Proof.
  exact (proj1 (proj1 (proj2 (unwrap_after_set_result TasqFuture_init
                                (result_of (VStr "a") 3) (result_of (VStr "a") 4)
                                eq_refl)) true)).
Defined.

(** *** Connecting again, and threads that have ended *)

Lemma schedule_flag c f a kw :
  _is_connected (schedule c f a kw).2 = _is_connected c ∧
  _gatherer (schedule c f a kw).2 = _gatherer c ∧
  cls (schedule c f a kw).2 = cls c.
Proof.
  destruct (_is_connected c) eqn:Hc.
  - pose proof (schedule_connected c f a kw Hc) as Hs.
    destruct (Job_init _ _ _ _ _) as [job u]. by rewrite Hs.
  - pose proof (schedule_disconnected c f a kw Hc) as Hs.
    destruct (Job_init _ _ _ _ _) as [job u]. by rewrite Hs.
Qed.

Lemma drain_flag n :
  ∀ c, _is_connected (drain n c).2 = _is_connected c ∧
       _gatherer (drain n c).2 = _gatherer c ∧
       cls (drain n c).2 = cls c.
Proof.
  induction n as [|n IH]; intros c; rewrite drain_unfold;
    destruct (deque_pop (_pending c)) as [[job q]|]; try done.
  destruct (kwargs job !! "name"); [done|].
  destruct (IH (schedule (with_pending q c) (func job) (args job)
                  (<["name" := job_id job]> (kwargs job))).2) as (-> & -> & ->).
  exact (schedule_flag (with_pending q c) _ _ _).
Qed.

Lemma connect_flag c : _is_connected (connect c).2 = true.
Proof.
  unfold connect, BaseTasqClient_connect, RedisTasqClient_connect,
    RabbitMQTasqClient_connect.
  destruct (cls c), (_is_connected c) eqn:Hc; simpl; try done; fields;
    destruct (_gatherer c); simpl; try done;
    by rewrite (proj1 (drain_flag _ _)).
Qed.

(** X19: as long as the calls on the connection itself return, [connect]
    leaves the client marked as connected, also when it raises because the
    gathering thread cannot be started ([RuntimeError]) or because a
    buffered job cannot be scheduled again ([TypeError]): the flag is set
    before either.  A second [connect] then does nothing at all: it returns
    without starting the thread or sending what the queue holds. *)
Theorem connect_again_does_nothing (c : Client) :
  _is_connected (connect c).2 = true ∧
  connect (connect c).2 = (Returns tt, (connect c).2).
Proof. split; [apply connect_flag | apply connect_connected, connect_flag]. Qed.

(** X20: while a client is disconnected, [schedule] returns no future,
    sends nothing, leaves the results map alone and puts the job at the left
    of the pending queue.  [pending_jobs] of a ZMQ or a RabbitMQ client
    lists the jobs scheduled so far with the most recent first; that of a
    Redis client returns what its connection answers, whatever the queue
    holds. *)
Theorem pending_jobs_newest_first (backlog : list Job) (c : Client)
    (calls : list (Func * list Value * gmap string Value)) :
  _is_connected c = false →
  _pending (schedule_all calls c)
    = reverse (jobs_of (uuid4 c) calls) ++ _pending c ∧
  pending_jobs backlog (schedule_all calls c)
    = match cls c with
      | RedisTasqClient => backlog
      | ZMQTasqClient | RabbitMQTasqClient =>
          reverse (jobs_of (uuid4 c) calls) ++ pending_jobs backlog c
      end ∧
  sent (schedule_all calls c) = sent c ∧
  _results (schedule_all calls c) = _results c ∧
  futures (schedule_all calls c) = futures c ∧
  ∀ f a kw, (schedule c f a kw).1 = None.
Proof.
  intros Hc.
  destruct (schedule_all_disconnected calls c Hc)
    as (_ & H2 & H3 & H4 & _ & H6 & H7).
  unfold pending_jobs, BaseTasqClient_pending_jobs,
    RedisTasqClient_pending_jobs, sent.
  rewrite H2, H3, H4, H6, H7. split_and!; try done.
  - by destruct (cls c).
  - intros f a kw.
    pose proof (schedule_disconnected c f a kw Hc) as Hs.
    destruct (Job_init _ _ _ _ _) as [job u]. by rewrite Hs.
Qed.

Lemma pending_jobs_newest_first_witness :
  job_id <$> pending_jobs [] (schedule_all
      [("f", [VInt 1], {["name" := VStr "a"]}); ("g", [], {["name" := VStr "b"]})]
      (Client_init ZMQTasqClient))
  = [VStr "b"; VStr "a"] ∧
  pending_jobs [] (schedule_all
      [("f", [VInt 1], {["name" := VStr "a"]}); ("g", [], {["name" := VStr "b"]})]
      (Client_init RedisTasqClient))
  = [].
Proof.
  split.
  - destruct (pending_jobs_newest_first [] (Client_init ZMQTasqClient)
        [("f", [VInt 1], {["name" := VStr "a"]}); ("g", [], {["name" := VStr "b"]})]
        eq_refl) as (_ & -> & _).
    reflexivity.
  - destruct (pending_jobs_newest_first [] (Client_init RedisTasqClient)
        [("f", [VInt 1], {["name" := VStr "a"]}); ("g", [], {["name" := VStr "b"]})]
        eq_refl) as (_ & -> & _).
    reflexivity.
Defined.

(** X21: a receive that raises ends the gathering loop of a Redis and of a
    RabbitMQ client, where nothing catches it: whatever is received after
    it, no future is completed any more. *)
Theorem receive_error_ends_other_loops (strict : bool) (c : Client)
    (l : option (option JobResult)) (evs : list Recv) :
  cls c ≠ ZMQTasqClient → _gatherer c = Alive l →
  gather strict (RecvError :: evs) c = with_gatherer (Dead TransportError) c.
Proof.
  intros Hk Hg. simpl.
  assert (gather_results strict RecvError c = with_gatherer (Dead TransportError) c)
    as ->.
  { unfold gather_results, RedisTasqClient_gather_results,
      RabbitMQTasqClient_gather_results. rewrite Hg. by destruct (cls c). }
  by apply gather_not_alive.
Qed.

Lemma receive_error_ends_other_loops_witness :
  futures (gather true [RecvError; Got (Some (result_of (VStr "a") 3))]
             (schedule (connected RedisTasqClient) "f" [] {["name" := VStr "a"]}).2)
  = [TasqFuture_init].
Proof.
  rewrite (receive_error_ends_other_loops true
             (schedule (connected RedisTasqClient) "f" [] {["name" := VStr "a"]}).2
             None [Got (Some (result_of (VStr "a") 3))]);
    [reflexivity | discriminate | reflexivity].
Defined.

Lemma op_step_dead strict e o c :
  _gatherer c = Dead e → _gatherer (op_step strict c o) = Dead e.
Proof.
  intros Hg. destruct o as [| |f a kw|ev]; simpl.
  - unfold connect, BaseTasqClient_connect, RedisTasqClient_connect,
      RabbitMQTasqClient_connect.
    destruct (cls c), (_is_connected c); by fields; rewrite ?Hg.
  - unfold disconnect, BaseTasqClient_disconnect, RedisTasqClient_disconnect,
      RabbitMQTasqClient_disconnect.
    by destruct (cls c), (_is_connected c).
  - destruct (schedule_flag c f a kw) as (_ & -> & _). done.
  - rewrite gather_results_not_alive; [done|]. by rewrite Hg.
Qed.

(** X22: a gathering thread that has ended is never started again: through
    every later run the thread stays ended, no result is gathered, and each
    [connect] of the client while it is disconnected raises [RuntimeError]
    and sends nothing of what the queue holds. *)
Theorem ended_thread_stays_ended (strict : bool) (c : Client) (e : Exception)
    (ops : list Op) :
  _gatherer c = Dead e →
  _gatherer (run_ops strict ops c) = Dead e ∧
  (_is_connected (run_ops strict ops c) = false →
   (connect (run_ops strict ops c)).1 = Raises RuntimeError ∧
   sent (connect (run_ops strict ops c)).2 = sent (run_ops strict ops c) ∧
   _pending (connect (run_ops strict ops c)).2 = _pending (run_ops strict ops c)).
Proof.
  intros Hg.
  assert (_gatherer (run_ops strict ops c) = Dead e) as Hdead.
  { induction ops as [|o ops IH] using rev_ind; [done|].
    rewrite run_ops_snoc. by apply op_step_dead. }
  split; [done|]. intros Hc.
  unfold connect, BaseTasqClient_connect, RedisTasqClient_connect,
    RabbitMQTasqClient_connect. rewrite Hc.
  destruct (cls (run_ops strict ops c)); fields; rewrite Hdead; simpl;
    split_and!; try done.
  unfold sent. simpl. rewrite sent_app. simpl. by rewrite (right_id_L [] (++)).
Qed.

Lemma ended_thread_stays_ended_witness :
  (connect (run_ops true [ODisconnect; OSchedule "g" [] ∅] waiting_client)).1
  = Raises RuntimeError.
Proof.
  refine (proj1 (proj2 (ended_thread_stays_ended true waiting_client
                          UnboundLocalError [ODisconnect; OSchedule "g" [] ∅] _) _));
    reflexivity.
Defined.

End client_props.
